(** * h2s-proxy: rule matching, header sanitising and request dispatch

    A shallow embedding of the routing core of the proxy:
    - [domain.Profile.MatchRule] (package [domain]),
    - [removeHopByHopHeader], [addHost2XForwardHeader], [copyHeader] and
      [H2SProxyServer.proxyHandler] (package [main], in its two revisions).

    Functions of the Go standard library that the program calls are either
    modelled after their documented behaviour ([http.Header], [strings.Join],
    [textproto.CanonicalMIMEHeaderKey], [net.IPNet.Contains], [http.Error])
    or taken as parameters ([net.ParseIP], [net.ParseCIDR],
    [net.SplitHostPort], [proxy.SOCKS5], [http.Client.Do], [io.Copy]). *)

From Stdlib Require Import Ascii String ZArith NArith List Bool.
From stdpp Require Import base option list gmap strings fin_maps.

Local Open Scope string_scope.
Local Open Scope list_scope.

(** ** Bytes and ASCII case *)

Module Bytes.

Definition code (c : ascii) : N := N_of_ascii c.

Definition is_lower (c : ascii) : bool := (97 <=? code c)%N && (code c <=? 122)%N.
Definition is_upper (c : ascii) : bool := (65 <=? code c)%N && (code c <=? 90)%N.
Definition is_digit (c : ascii) : bool := (48 <=? code c)%N && (code c <=? 57)%N.

(** [c - toLower] and [c + toLower] of textproto, with [toLower = 'a' - 'A']. *)
Definition sub32 (c : ascii) : ascii := ascii_of_N (code c - 32).
Definition add32 (c : ascii) : ascii := ascii_of_N (code c + 32).

Definition lower (c : ascii) : ascii := if is_upper c then add32 c else c.

(** The [tchar] table of RFC 7230 (textproto's [isTokenTable]). *)
Definition validHeaderFieldByte (c : ascii) : bool :=
  is_lower c || is_upper c || is_digit c ||
  existsb (N.eqb (code c)) [33; 35; 36; 37; 38; 39; 42; 43; 45; 46; 94; 95; 96; 124; 126]%N.

Definition dash : ascii := "-"%char.

Fixpoint all (f : ascii -> bool) (s : string) : bool :=
  match s with
  | EmptyString => true
  | String c s' => f c && all f s'
  end.

Fixpoint map (f : ascii -> ascii) (s : string) : string :=
  match s with
  | EmptyString => EmptyString
  | String c s' => String (f c) (map f s')
  end.

End Bytes.

(** ASCII lower-casing of a whole string; two header names denote the same
    field when their lower-cased forms coincide. *)
Definition ToLower (s : string) : string := Bytes.map Bytes.lower s.

Definition EqualFold (s t : string) : bool := bool_decide (ToLower s = ToLower t).

(** ** [strings.Join] *)

Fixpoint strings_Join (elems : list string) (sep : string) : string :=
  match elems with
  | [] => ""
  | [e] => e
  | e :: rest => e +:+ sep +:+ strings_Join rest sep
  end.

(** ** [textproto.CanonicalMIMEHeaderKey] *)

(** One step of the canonicalising loop: upper-case the first letter and
    every letter after a dash, lower-case the others. *)
Definition canon_byte (upper : bool) (c : ascii) : ascii :=
  if upper && Bytes.is_lower c then Bytes.sub32 c
  else if negb upper && Bytes.is_upper c then Bytes.add32 c
  else c.

Fixpoint canonical_loop (upper : bool) (a : string) : string :=
  match a with
  | EmptyString => EmptyString
  | String c rest =>
      let c' := canon_byte upper c in
      String c' (canonical_loop (Ascii.eqb c' Bytes.dash) rest)
  end.

(** A key with a byte outside the token table is returned unchanged. *)
Definition CanonicalMIMEHeaderKey (s : string) : string :=
  if Bytes.all Bytes.validHeaderFieldByte s then canonical_loop true s else s.

(** ** [http.Header] *)

(** [type Header map[string][]string]. *)
Abbreviation Header := (gmap string (list string)).

Module Hdr.

(** [h[key]] with Go's zero value ([nil]) for a missing key. *)
Definition index (h : Header) (key : string) : list string := default [] (h !! key).

Definition Del (h : Header) (key : string) : Header :=
  delete (CanonicalMIMEHeaderKey key) h.

Definition Set_ (h : Header) (key value : string) : Header :=
  <[CanonicalMIMEHeaderKey key := [value]]> h.

Definition Add (h : Header) (key value : string) : Header :=
  let k := CanonicalMIMEHeaderKey key in
  <[k := (index h k ++ [value])%list]> h.

Definition Values (h : Header) (key : string) : list string :=
  index h (CanonicalMIMEHeaderKey key).

Definition Get (h : Header) (key : string) : string :=
  match Values h key with
  | [] => ""
  | v :: _ => v
  end.

(** The documented convention of [http.Header]: keys are in canonical form. *)
Definition canonical (h : Header) : Prop :=
  ∀ k, is_Some (h !! k) → CanonicalMIMEHeaderKey k = k.

End Hdr.

(** ** The header functions of package [main] *)

Definition hopByHopHeaders : list string :=
  [ "Proxy-Connection"; "Keep-Alive"; "TE"; "Transfer-Encoding"; "Upgrade" ].

Definition removeHopByHopHeader (header : Header) : Header :=
  foldl (fun hd h => Hdr.Del hd h) header hopByHopHeaders.

Definition addHost2XForwardHeader (header : Header) (host : string) : Header :=
  let nextValue :=
    match header !! "X-Forwarded-For" with
    | Some prior => strings_Join prior ", " +:+ ", " +:+ host
    | None => ""
    end in
  Hdr.Set_ header "X-Forwarded-For" nextValue.

(** [for k, vv := range src] visits the entries of [src] in an unspecified
    order; [copyHeader_from] runs the loop body over the entries in the order
    given, and [copyHeader] picks the order of [map_to_list]. *)
Definition copyHeader_from (entries : list (string * list string)) (dst : Header) : Header :=
  foldl (fun d kvv => foldl (fun d' v => Hdr.Add d' kvv.1 v) d kvv.2) dst entries.

Definition copyHeader (dst src : Header) : Header :=
  copyHeader_from (map_to_list src) dst.

(** The values that a pass over [entries] adds under the key [k]: the
    values of every entry whose name canonicalises to [k], in pass order. *)
Definition added (entries : list (string * list string)) (k : string) : list string :=
  flat_map (fun kvv => if decide (CanonicalMIMEHeaderKey kvv.1 = k) then kvv.2 else []) entries.

(** A header name is hop-by-hop when it equals one of the five names up to
    ASCII case. *)
Definition is_hop_name (name : string) : bool :=
  existsb (EqualFold name) hopByHopHeaders.


(** ** Package [net]: addresses, networks and containment *)

Module net.

(** [type IP []byte]; Go's [nil] slice is the empty list. *)
Definition IP := list Z.
Definition IPMask := list Z.

Record IPNet := { IPNet_IP : IP; IPNet_Mask : IPMask }.

Definition IPv4len : nat := 4.
Definition IPv6len : nat := 16.

Definition isZeros (p : list Z) : bool := forallb (Z.eqb 0) p.

(** [ip[i]] *)
Definition at_ (ip : list Z) (i : nat) : Z := nth i ip 0%Z.

Definition To4 (ip : IP) : IP :=
  if Nat.eqb (length ip) IPv4len then ip
  else if Nat.eqb (length ip) IPv6len && isZeros (take 10 ip)
          && Z.eqb (at_ ip 10) 255 && Z.eqb (at_ ip 11) 255
       then drop 12 (take 16 ip)
       else [].

Definition networkNumberAndMask (n : IPNet) : IP * IPMask :=
  let ip4 := To4 (IPNet_IP n) in
  let ip := match ip4 with [] => IPNet_IP n | _ => ip4 end in
  if match ip4 with [] => negb (Nat.eqb (length ip) IPv6len) | _ => false end
  then ([], [])
  else
    let m := IPNet_Mask n in
    if Nat.eqb (length m) IPv4len then
      if negb (Nat.eqb (length ip) IPv4len) then ([], []) else (ip, m)
    else if Nat.eqb (length m) IPv6len then
      if Nat.eqb (length ip) IPv4len then (ip, drop 12 m) else (ip, m)
    else ([], []).

(** [func (n *IPNet) Contains(ip IP) bool] *)
Definition Contains (n : IPNet) (ip : IP) : bool :=
  let '(nn, m) := networkNumberAndMask n in
  let ip := match To4 ip with [] => ip | x => x end in
  let l := length ip in
  if negb (Nat.eqb l (length nn)) then false
  else forallb (fun i => Z.eqb (Z.land (at_ nn i) (at_ m i)) (Z.land (at_ ip i) (at_ m i)))
               (seq 0 l).

(** What [ParseCIDR] builds: a 4-byte network with a 4-byte mask, or a
    16-byte network with a 16-byte mask. *)
Definition sized (n : IPNet) : Prop :=
  (length (IPNet_IP n) = 4%nat ∧ length (IPNet_Mask n) = 4%nat) ∨
  (length (IPNet_IP n) = 16%nat ∧ length (IPNet_Mask n) = 16%nat).

(** Errors of the library: [*net.ParseError], [*net.AddrError], others. *)
Inductive Error :=
| ParseError (Type_ Text : string)
| AddrError (Err Addr : string)
| OpError (msg : string).

#[global] Instance Error_eq_dec : EqDecision Error.
Proof. solve_decision. Defined.

(** The functions of the package that the program calls and that are
    taken as given. [ParseIP] returns [nil] for a string that is not an IP
    literal; [ParseCIDR] returns the network (its first result, the address,
    is discarded by the caller) or an error. *)
Record Lib := {
  ParseIP : string → IP;
  ParseCIDR : string → IPNet + Error;
  SplitHostPort : string → (string * string) + Error
}.

Definition cidr_sized (L : Lib) : Prop :=
  ∀ s n, ParseCIDR L s = inl n → sized n.

End net.

(** ** Package [domain] *)

(** Go's [error] values as the program sees them: the package's own sentinel
    [ErrNotFoundRule] (created once by [errors.New], compared by identity)
    and the errors handed back by the libraries. *)
Inductive error :=
| ErrNotFoundRule
| LibError (e : net.Error).

#[global] Instance error_eq_dec : EqDecision error.
Proof. solve_decision. Defined.

Record Rule := {
  Name : string;
  ProxyType : string;
  ProxyIP : string;
  Port : string;
  Patterns : list string
}.

Record Profile := {
  ServerHost : string;
  ServerPort : string;
  Rules : list Rule
}.

(** [Rule{}] *)
Definition zeroRule : Rule :=
  {| Name := ""; ProxyType := ""; ProxyIP := ""; Port := ""; Patterns := [] |}.

Definition GetServerAddr (p : Profile) : string :=
  ServerHost p +:+ ":" +:+ ServerPort p.

Section MatchRule.

Variable L : net.Lib.

(** The inner loop over the patterns of one rule: [Some] is a [return],
    [None] is falling out of the loop. *)
Fixpoint match_patterns (path : string) (rule : Rule) (ptns : list string)
  : option (Rule * option error) :=
  match ptns with
  | [] => None
  | ptn :: rest =>
      let ip := net.ParseIP L path in
      match net.ParseCIDR L ptn with
      | inr err => Some (zeroRule, Some (LibError err))
      | inl ipNet =>
          if net.Contains ipNet ip then Some (rule, None)
          else match_patterns path rule rest
      end
  end.

(** The outer loop over the rules and the final [return]. *)
Fixpoint match_rules (path : string) (rules : list Rule) : Rule * option error :=
  match rules with
  | [] => (zeroRule, Some ErrNotFoundRule)
  | rule :: rest =>
      match match_patterns path rule (Patterns rule) with
      | Some r => r
      | None => match_rules path rest
      end
  end.

Definition MatchRule (p : Profile) (path : string) : Rule * option error :=
  match_rules path (Rules p).

(** *** Vocabulary for stating what [MatchRule] finds *)

(** The pattern parses as a CIDR block and the block contains the parsed
    form of the host. *)
Definition pattern_contains (path ptn : string) : bool :=
  match net.ParseCIDR L ptn with
  | inl ipNet => net.Contains ipNet (net.ParseIP L path)
  | inr _ => false
  end.

Definition pattern_parses (ptn : string) : bool :=
  match net.ParseCIDR L ptn with
  | inl _ => true
  | inr _ => false
  end.

(** The declared (rule, then pattern) order: every pattern paired with its
    rule, rules in order and patterns in order within a rule. *)
Definition declared (rules : list Rule) : list (Rule * string) :=
  flat_map (fun r => map (pair r) (Patterns r)) rules.

(** The first rule, in declared order, with a pattern containing the host:
    the result the specification asks of [match]. *)
Definition first_match (p : Profile) (path : string) : option Rule :=
  fst <$> find (fun rp => pattern_contains path rp.2) (declared (Rules p)).

(** The two loops read as one pass over the declared sequence. *)
Fixpoint scan (path : string) (l : list (Rule * string)) : Rule * option error :=
  match l with
  | [] => (zeroRule, Some ErrNotFoundRule)
  | (rule, ptn) :: rest =>
      match net.ParseCIDR L ptn with
      | inr err => (zeroRule, Some (LibError err))
      | inl ipNet =>
          if net.Contains ipNet (net.ParseIP L path) then (rule, None)
          else scan path rest
      end
  end.

Definition all_parse (p : Profile) : Prop :=
  ∀ rp, rp ∈ declared (Rules p) → pattern_parses rp.2 = true.

End MatchRule.

(** ** Package [net/http]: requests, responses and the response writer *)

Module http.

Record URL := { Scheme : string; Host : string; Path : string }.

Record Request := {
  req_Method : string;
  req_URL : URL;
  req_Header : Header;
  req_RequestURI : string;
  req_RemoteAddr : string;
  req_Body : string
}.

Record Response := {
  res_StatusCode : Z;
  res_Header : Header;
  res_Body : string
}.

Definition StatusOK : Z := 200.
Definition StatusBadRequest : Z := 400.
Definition StatusInternalServerError : Z := 500.

(** What the client of the proxy is sent: the header map of the writer, the
    status line once it has been written, and the body bytes written so far. *)
Record ResponseWriter := {
  rw_Header : Header;
  rw_status : option Z;
  rw_body : string
}.

Definition newResponseWriter : ResponseWriter :=
  {| rw_Header := ∅; rw_status := None; rw_body := "" |}.

Definition with_Header (w : ResponseWriter) (h : Header) : ResponseWriter :=
  {| rw_Header := h; rw_status := rw_status w; rw_body := rw_body w |}.

(** The first [WriteHeader] wins; later calls are ignored. *)
Definition WriteHeader (w : ResponseWriter) (code : Z) : ResponseWriter :=
  match rw_status w with
  | Some _ => w
  | None => {| rw_Header := rw_Header w; rw_status := Some code; rw_body := rw_body w |}
  end.

(** [Write] sends the status line with [StatusOK] when none was written. *)
Definition Write (w : ResponseWriter) (data : string) : ResponseWriter :=
  let w' := WriteHeader w StatusOK in
  {| rw_Header := rw_Header w'; rw_status := rw_status w'; rw_body := rw_body w' +:+ data |}.

Definition newline : string := String (ascii_of_nat 10) EmptyString.

(** [http.Error(w, error, code)] *)
Definition Error (w : ResponseWriter) (error : string) (code : Z) : ResponseWriter :=
  let h := Hdr.Set_ (rw_Header w) "Content-Type" "text/plain; charset=utf-8" in
  let h := Hdr.Set_ h "X-Content-Type-Options" "nosniff" in
  Write (WriteHeader (with_Header w h) code) (error +:+ newline).

Definition with_req_Header (r : Request) (h : Header) : Request :=
  {| req_Method := req_Method r; req_URL := req_URL r; req_Header := h;
     req_RequestURI := req_RequestURI r; req_RemoteAddr := req_RemoteAddr r;
     req_Body := req_Body r |}.

Definition with_RequestURI (r : Request) (u : string) : Request :=
  {| req_Method := req_Method r; req_URL := req_URL r; req_Header := req_Header r;
     req_RequestURI := u; req_RemoteAddr := req_RemoteAddr r;
     req_Body := req_Body r |}.

End http.

(** ** Package [main]: the request handler *)

(** The dialer built by [proxy.SOCKS5(network, address, nil, proxy.Direct)]. *)
Inductive Dialer := Socks5Dialer (network address : string).

(** [http.Client{}] and [http.Client{Transport: &http.Transport{Dial: d.Dial}}]. *)
Inductive Client :=
| DefaultClient
| DialClient (d : Dialer).

(** The outbound side, taken as given: building the dialer, performing the
    request, and copying the response body to the client ([io.Copy] yields
    the bytes that reached the client and the error that stopped it, if any). *)
Record Outbound := {
  SOCKS5 : string → string → Dialer + net.Error;
  Do : Client → http.Request → http.Response + net.Error;
  Copy : string → string * option net.Error
}.

Inductive Level := Debug | Info | Error_ | Std | Stdout.

(** A log line: its sink and its message (a format string is kept unrendered). *)
Record LogEntry := { level : Level; text : string }.

(** What one run of the handler did: the state of the response writer, the
    lines logged, the outbound requests issued, and the exit code if the run
    ended the process ([os.Exit]) instead of returning. *)
Record Run := {
  wr : http.ResponseWriter;
  logged : list LogEntry;
  outbound : list (Client * http.Request);
  exited : option Z
}.

Definition start (w : http.ResponseWriter) : Run :=
  {| wr := w; logged := []; outbound := []; exited := None |}.

Definition say (l : Level) (msg : string) (r : Run) : Run :=
  {| wr := wr r; logged := (logged r ++ [{| level := l; text := msg |}])%list;
     outbound := outbound r; exited := exited r |}.

Definition on_wr (f : http.ResponseWriter → http.ResponseWriter) (r : Run) : Run :=
  {| wr := f (wr r); logged := logged r; outbound := outbound r; exited := exited r |}.

Definition http_Error (msg : string) (code : Z) (r : Run) : Run :=
  on_wr (fun w => http.Error w msg code) r.

Definition issue (c : Client) (req : http.Request) (r : Run) : Run :=
  {| wr := wr r; logged := logged r; outbound := (outbound r ++ [(c, req)])%list;
     exited := exited r |}.

(** [log.Fatalf]: print, then [os.Exit(1)]; nothing after it runs. *)
Definition log_Fatalf (msg : string) (r : Run) : Run :=
  let r' := say Std msg r in
  {| wr := wr r'; logged := logged r'; outbound := outbound r'; exited := Some 1%Z |}.

Record H2SProxyServer := { profile : Profile }.

(** The scheme test of both revisions. *)
Definition unsupported_scheme (scheme : string) : bool :=
  negb (String.eqb scheme "http") && negb (String.eqb scheme "https").

(** [err != nil && err != domain.ErrNotFoundRule] *)
Definition is_hard_failure (err : option error) : bool :=
  match err with
  | Some e => bool_decide (e ≠ ErrNotFoundRule)
  | None => false
  end.

(** The tail shared by both revisions up to logging ([client.Do(req)] to the
    end of the handler): perform the request with the chosen client and relay
    the response. [note] writes the log line of a failed step; the revision
    that logs nothing there passes a function that ignores it. *)
Definition relay (O : Outbound) (note : string → Run → Run)
    (client : Client) (req : http.Request) (r : Run) : Run :=
  let r := issue client req r in
  match Do O client req with
  | inr _ => http_Error "unexpected error" http.StatusInternalServerError
               (note "failed to do req: %v" r)
  | inl res =>
      let h := removeHopByHopHeader (http.res_Header res) in
      let r := on_wr (fun w => http.with_Header w (copyHeader (http.rw_Header w) h)) r in
      let r := on_wr (fun w => http.WriteHeader w (http.res_StatusCode res)) r in
      let '(written, cerr) := Copy O (http.res_Body res) in
      let r := on_wr (fun w => http.Write w written) r in
      match cerr with
      | Some _ => http_Error "unexpected error" http.StatusInternalServerError
                    (note "failed to copy body: %v" r)
      | None => r
      end
  end.

(** *** [src/main.go] *)

Module MainGo.

Section Handler.

Variable L : net.Lib.
Variable O : Outbound.

Definition proxyHandler (s : H2SProxyServer) (w : http.ResponseWriter)
    (req : http.Request) : Run :=
  let r := say Debug "remoteAddr: %v, Method: %v, URL: %v" (start w) in
  let scheme := http.Scheme (http.req_URL req) in
  if unsupported_scheme scheme then
    let msg := "unsupported protocal scheme " +:+ scheme in
    let r := say Error_ msg r in
    http_Error msg http.StatusBadRequest r
  else
    match net.SplitHostPort L (http.Host (http.req_URL req)) with
    | inr _ =>
        let r := say Error_ "failed to splitHostPort: %v" r in
        http_Error "unexpected error" http.StatusInternalServerError r
    | inl (host, _) =>
        let req := http.with_req_Header req (removeHopByHopHeader (http.req_Header req)) in
        let req := http.with_req_Header req (addHost2XForwardHeader (http.req_Header req) host) in
        let '(rule, err) := MatchRule L (profile s) host in
        if is_hard_failure err then
          let r := say Error_ "failed to match rule: %v" r in
          http_Error "unexpected error" http.StatusInternalServerError r
        else
          let req := if negb (String.eqb (http.req_RequestURI req) "")
                     then http.with_RequestURI req "" else req in
          match err with
          | None =>
              match SOCKS5 O "tcp" (ProxyIP rule +:+ ":" +:+ Port rule) with
              | inr _ =>
                  let r := say Error_ "failed to create socksDailer: %v" r in
                  http_Error "unexpected error" http.StatusInternalServerError r
              | inl socksDialer =>
                  let r := say Info "proxy" r in
                  relay O (say Error_) (DialClient socksDialer) req r
              end
          | Some _ =>
              let r := say Info "proxy" r in
              relay O (say Error_) DefaultClient req r
          end
    end.

End Handler.

End MainGo.

(** *** The other revision of the file (unnamed/part_001) *)

Module Part001.

Section Handler.

Variable L : net.Lib.
Variable O : Outbound.

Definition proxyHandler (s : H2SProxyServer) (w : http.ResponseWriter)
    (req : http.Request) : Run :=
  let r := say Std "remoteAddr: %v, Method: %v, URL: %v" (start w) in
  let scheme := http.Scheme (http.req_URL req) in
  if unsupported_scheme scheme then
    let msg := "unsupported protocal scheme " +:+ scheme in
    let r := http_Error msg http.StatusBadRequest r in
    say Std msg r
  else
    match net.SplitHostPort L (http.Host (http.req_URL req)) with
    | inr _ =>
        (* log.Fatalf ends the process: the http.Error and the return
           written after it are never reached *)
        log_Fatalf "failed to splitHostPort: %v" r
    | inl (host, _) =>
        let req := http.with_req_Header req (removeHopByHopHeader (http.req_Header req)) in
        let req := http.with_req_Header req (addHost2XForwardHeader (http.req_Header req) host) in
        let '(rule, err) := MatchRule L (profile s) host in
        if is_hard_failure err then
          http_Error "unexpected error" http.StatusInternalServerError r
        else
          let req := if negb (String.eqb (http.req_RequestURI req) "")
                     then http.with_RequestURI req "" else req in
          match err with
          | None =>
              let r := say Stdout "Exec rule name: %v" r in
              match SOCKS5 O "tcp" (ProxyIP rule +:+ ":" +:+ Port rule) with
              | inr _ =>
                  http_Error "unexpected error" http.StatusInternalServerError r
              | inl socksDialer =>
                  relay O (fun _ r => r) (DialClient socksDialer) req r
              end
          | Some _ =>
              relay O (fun _ r => r) DefaultClient req r
          end
    end.

End Handler.

End Part001.

(** ** A concrete [net] library: the dotted-decimal (IPv4) fragment

    [net4] implements the IPv4 part of [net.ParseIP] and [net.ParseCIDR]
    and all of [net.SplitHostPort]. It instantiates the parameters of the
    development on concrete inputs; the theorems themselves hold for any
    library. *)

Module net4.

Fixpoint index_byte (c : ascii) (s : string) : option nat :=
  match s with
  | EmptyString => None
  | String a rest => if Ascii.eqb a c then Some 0%nat else S <$> index_byte c rest
  end.

Fixpoint last_byte (c : ascii) (s : string) : option nat :=
  match s with
  | EmptyString => None
  | String a rest =>
      match last_byte c rest with
      | Some i => Some (S i)
      | None => if Ascii.eqb a c then Some 0%nat else None
      end
  end.

(** [s[n:]] *)
Definition from (n : nat) (s : string) : string :=
  substring n (String.length s - n) s.

Fixpoint split_on (sep : ascii) (s : string) : list string :=
  match s with
  | EmptyString => [EmptyString]
  | String c rest =>
      if Ascii.eqb c sep then EmptyString :: split_on sep rest
      else match split_on sep rest with
           | h :: t => String c h :: t
           | [] => [String c EmptyString]
           end
  end.

Fixpoint digits (s : string) (acc : Z) : option Z :=
  match s with
  | EmptyString => Some acc
  | String c rest =>
      if Bytes.is_digit c
      then digits rest (acc * 10 + Z.of_N (Bytes.code c) - 48)%Z
      else None
  end.

(** A non-empty run of decimal digits, as [dtoi] reads it when it consumes
    the whole string. *)
Definition dtoi (s : string) : option Z :=
  match s with
  | EmptyString => None
  | _ => digits s 0
  end.

(** One component of a dotted-decimal address: at most 255, and no leading
    zero unless it is the single digit 0. *)
Definition octet (s : string) : option Z :=
  match dtoi s with
  | Some n =>
      if (n <=? 255)%Z && negb (Nat.ltb 1 (String.length s) && String.prefix "0" s)
      then Some n else None
  | None => None
  end.

Definition parseIPv4 (s : string) : option (list Z) :=
  match split_on "." s with
  | [a; b; c; d] =>
      match octet a, octet b, octet c, octet d with
      | Some x, Some y, Some z, Some t => Some [x; y; z; t]
      | _, _, _, _ => None
      end
  | _ => None
  end.

Definition v4InV6Prefix : list Z := [0; 0; 0; 0; 0; 0; 0; 0; 0; 0; 255; 255]%Z.

Definition ParseIP (s : string) : net.IP :=
  match parseIPv4 s with
  | Some p => (v4InV6Prefix ++ p)%list
  | None => []
  end.

(** [CIDRMask(ones, 8 * len)]: [ones] one-bits followed by zero-bits. *)
Fixpoint CIDRMask (ones : Z) (len : nat) : list Z :=
  match len with
  | O => []
  | S len' =>
      if (8 <=? ones)%Z then 255%Z :: CIDRMask (ones - 8) len'
      else Z.land (Z.lnot (Z.shiftr 255 ones)) 255 :: CIDRMask 0 len'
  end.

Definition ParseCIDR (s : string) : net.IPNet + net.Error :=
  let bad := inr (net.ParseError "CIDR address" s) in
  match index_byte "/" s with
  | None => bad
  | Some i =>
      match parseIPv4 (substring 0 i s), dtoi (from (S i) s) with
      | Some ip, Some n =>
          if (n <=? 32)%Z then
            let m := CIDRMask n 4 in
            inl {| net.IPNet_IP := zip_with Z.land ip m; net.IPNet_Mask := m |}
          else bad
      | _, _ => bad
      end
  end.

Definition has (c : ascii) (s : string) : bool :=
  match index_byte c s with
  | Some _ => true
  | None => false
  end.

Definition SplitHostPort (hostport : string) : (string * string) + net.Error :=
  let addrErr why := inr (net.AddrError why hostport) in
  let missingPort := "missing port in address" in
  let tooManyColons := "too many colons in address" in
  let finish (host : string) (j k i : nat) :=
    if has "[" (from j hostport) then addrErr "unexpected '[' in address"
    else if has "]" (from k hostport) then addrErr "unexpected ']' in address"
    else inl (host, from (S i) hostport) in
  match last_byte ":" hostport with
  | None => addrErr missingPort
  | Some i =>
      if String.prefix "[" hostport then
        match index_byte "]" hostport with
        | None => addrErr "missing ']' in address"
        | Some end_ =>
            if Nat.eqb (S end_) (String.length hostport) then addrErr missingPort
            else if Nat.eqb (S end_) i then
              finish (substring 1 (end_ - 1) hostport) 1%nat (S end_) i
            else if bool_decide (String.get (S end_) hostport = Some ":"%char)
                 then addrErr tooManyColons
                 else addrErr missingPort
        end
      else
        let host := substring 0 i hostport in
        if has ":" host then addrErr tooManyColons
        else finish host 0%nat 0%nat i
  end.

Definition lib : net.Lib :=
  {| net.ParseIP := ParseIP; net.ParseCIDR := ParseCIDR; net.SplitHostPort := SplitHostPort |}.

End net4.

(** ** Scenario data *)

Module Scenario.

(** The rule set of the specification's scenarios. *)
Definition internal : Rule :=
  {| Name := "internal"; ProxyType := "socks5"; ProxyIP := "127.0.0.1";
     Port := "1080"; Patterns := ["10.0.0.0/8"] |}.

Definition office : Rule :=
  {| Name := "office"; ProxyType := "socks5"; ProxyIP := "192.168.0.9";
     Port := "1080"; Patterns := ["172.16.0.0/12"; "10.1.0.0/16"] |}.

Definition everything : Rule :=
  {| Name := "everything"; ProxyType := "socks5"; ProxyIP := "127.0.0.1";
     Port := "9050"; Patterns := ["0.0.0.0/0"] |}.

Definition broken : Rule :=
  {| Name := "broken"; ProxyType := "socks5"; ProxyIP := "127.0.0.1";
     Port := "1081"; Patterns := ["not-a-cidr"; "10.0.0.0/8"] |}.

Definition mk (rules : list Rule) : Profile :=
  {| ServerHost := "127.0.0.1"; ServerPort := "8080"; Rules := rules |}.

(** An upstream that answers every request with the same response and a
    client connection that takes the whole body. *)
Definition upstream : Outbound :=
  {| SOCKS5 := fun network address => inl (Socks5Dialer network address);
     Do := fun _ _ =>
       inl {| http.res_StatusCode := 200;
              http.res_Header := {[ "Content-Type" := ["text/html"] ]};
              http.res_Body := "ok" |};
     Copy := fun body => (body, None) |}.

Definition request (scheme host : string) : http.Request :=
  {| http.req_Method := "GET";
     http.req_URL := {| http.Scheme := scheme; http.Host := host; http.Path := "/" |};
     http.req_Header := {[ "Accept" := ["*/*"] ]};
     http.req_RequestURI := scheme +:+ "://" +:+ host +:+ "/";
     http.req_RemoteAddr := "198.51.100.7:40000";
     http.req_Body := "" |}.

End Scenario.

(** ** Package [main]: construction and profile loading *)

Definition NewH2SProxyServer (p : Profile) : H2SProxyServer := {| profile := p |}.

(** [var profile domain.Profile] *)
Definition zeroProfile : Profile :=
  {| ServerHost := ""; ServerPort := ""; Rules := [] |}.

(** The file system and the JSON decoder, taken as given: [os.Open],
    [io.ReadAll], and [json.Unmarshal(data, &profile)], which returns the
    profile as the decoder left it together with its error. *)
Record Files := {
  File : Type;
  Open : string → File + net.Error;
  ReadAll : File → string + net.Error;
  Unmarshal : string → Profile → Profile * option net.Error
}.

(** [loadProfile] returns [(nil, err)] or [(&profile, nil)]; the result of
    [json.Unmarshal] is not looked at. *)
Definition loadProfile (F : Files) (path : string) : option Profile * option net.Error :=
  match Open F path with
  | inr err => (None, Some err)
  | inl file =>
      match ReadAll F file with
      | inr err => (None, Some err)
      | inl bytesFile =>
          let '(p, _) := Unmarshal F bytesFile zeroProfile in
          (Some p, None)
      end
  end.

(** ** Passing over patterns *)

(** Every pattern of [pre] parses and none contains the host: the loops of
    [MatchRule] pass over all of [pre]. *)
Definition passes (L : net.Lib) (path : string) (pre : list (Rule * string)) : Prop :=
  ∀ x, x ∈ pre → pattern_parses L x.2 = true ∧ pattern_contains L path x.2 = false.

(** ** Chains of proxies *)

(** The header after it has passed through one proxy per host of [hosts],
    each applying [addHost2XForwardHeader] with the host it saw. *)
Definition forwarded_through (hosts : list string) (header : Header) : Header :=
  foldl addHost2XForwardHeader header hosts.

(** The sanitising steps of the handler on the request header, in order. *)
Definition sanitise (header : Header) (host : string) : Header :=
  addHost2XForwardHeader (removeHopByHopHeader header) host.

(** ** What the handler sends and what a run shows *)

(** The request as the handler hands it to the client: the request it
    received with the sanitised header and an empty [RequestURI]. *)
Definition outbound_request (req : http.Request) (host : string) : http.Request :=
  {| http.req_Method := http.req_Method req;
     http.req_URL := http.req_URL req;
     http.req_Header := sanitise (http.req_Header req) host;
     http.req_RequestURI := "";
     http.req_RemoteAddr := http.req_RemoteAddr req;
     http.req_Body := http.req_Body req |}.

(** Two runs that differ at most in what they logged. *)
Definition same_effects (r1 r2 : Run) : Prop :=
  wr r1 = wr r2 ∧ outbound r1 = outbound r2 ∧ exited r1 = exited r2.

(** A log function changes the log only. *)
Definition logs_only (note : string → Run → Run) : Prop :=
  ∀ m r, same_effects (note m r) r.

(** ** Upstreams that fail *)

Module Upstreams.

(** No upstream answers. *)
Definition unreachable : Outbound :=
  {| SOCKS5 := fun network address => inl (Socks5Dialer network address);
     Do := fun _ _ => inr (net.OpError "connection refused");
     Copy := fun body => (body, None) |}.

(** The upstream answers with hop-by-hop headers among the others, and the
    client goes away after the first byte of the body. *)
Definition cut_off : Outbound :=
  {| SOCKS5 := fun network address => inl (Socks5Dialer network address);
     Do := fun _ _ =>
       inl {| http.res_StatusCode := 206;
              http.res_Header := {[ "Keep-Alive" := ["timeout=5"];
                                    "Content-Type" := ["text/html"] ]};
              http.res_Body := "ok" |};
     Copy := fun body => (substring 0 1 body, Some (net.OpError "broken pipe")) |}.

(** The same upstream with a client that takes the whole body. *)
Definition chatty : Outbound :=
  {| SOCKS5 := SOCKS5 cut_off; Do := Do cut_off; Copy := fun body => (body, None) |}.

(** The dialer cannot be built. *)
Definition no_dialer : Outbound :=
  {| SOCKS5 := fun _ _ => inr (net.OpError "unknown network");
     Do := Do cut_off; Copy := fun body => (body, None) |}.

End Upstreams.

(** ** A concrete file system *)

Module Disk.

(** A profile file that opens and reads, with a decoder that rejects its
    contents and leaves the profile untouched. *)
Definition files : Files :=
  {| File := string;
     Open := fun path =>
       if String.eqb path "./profile.json" then inl "{ rules: "
       else inr (net.OpError "open: no such file or directory");
     ReadAll := fun contents => inl contents;
     Unmarshal := fun _ p => (p, Some (net.OpError "invalid character")) |}.

End Disk.

(** * Properties *)

(** ** Evaluation checks of the library models *)

Example canonical_TE : CanonicalMIMEHeaderKey "TE" = "Te".
Proof. reflexivity. Qed.

Example canonical_xff : CanonicalMIMEHeaderKey "x-forwarded-for" = "X-Forwarded-For".
Proof. reflexivity. Qed.

Example canonical_invalid : CanonicalMIMEHeaderKey "keep alive" = "keep alive".
Proof. reflexivity. Qed.

Example join_abc : strings_Join ["a"; "b"; "c"] ", " = "a, b, c".
Proof. reflexivity. Qed.

Example parse_ip_literal :
  net4.ParseIP "10.1.2.3" = [0; 0; 0; 0; 0; 0; 0; 0; 0; 0; 255; 255; 10; 1; 2; 3]%Z.
Proof. reflexivity. Qed.

Example parse_ip_name : net4.ParseIP "example.com" = [].
Proof. reflexivity. Qed.

Example parse_ip_leading_zero : net4.ParseIP "10.01.2.3" = [].
Proof. reflexivity. Qed.

Example parse_cidr_10 :
  net4.ParseCIDR "10.9.8.7/8" =
  inl {| net.IPNet_IP := [10; 0; 0; 0]%Z; net.IPNet_Mask := [255; 0; 0; 0]%Z |}.
Proof. reflexivity. Qed.

Example parse_cidr_12 :
  net4.ParseCIDR "172.16.0.0/12" =
  inl {| net.IPNet_IP := [172; 16; 0; 0]%Z; net.IPNet_Mask := [255; 240; 0; 0]%Z |}.
Proof. reflexivity. Qed.

Example parse_cidr_bad :
  net4.ParseCIDR "not-a-cidr" = inr (net.ParseError "CIDR address" "not-a-cidr").
Proof. reflexivity. Qed.

Example split_ok : net4.SplitHostPort "example.com:8080" = inl ("example.com", "8080").
Proof. reflexivity. Qed.

Example split_v6 : net4.SplitHostPort "[::1]:80" = inl ("::1", "80").
Proof. reflexivity. Qed.

Example split_missing :
  net4.SplitHostPort "example.com" =
  inr (net.AddrError "missing port in address" "example.com").
Proof. reflexivity. Qed.

Example split_colons :
  net4.SplitHostPort "a:b:80" = inr (net.AddrError "too many colons in address" "a:b:80").
Proof. reflexivity. Qed.

Example contains_10 :
  match net4.ParseCIDR "10.0.0.0/8" with
  | inl n => net.Contains n (net4.ParseIP "10.1.2.3") = true ∧
             net.Contains n (net4.ParseIP "8.8.8.8") = false ∧
             net.Contains n (net4.ParseIP "example.com") = false
  | inr _ => False
  end.
Proof. vm_compute. auto. Qed.

(** ** Canonical header keys and ASCII case *)

Module Canon.

Ltac by_bytes c := destruct c as [[] [] [] [] [] [] [] []]; vm_compute; reflexivity.

Lemma valid_lower c :
  Bytes.validHeaderFieldByte (Bytes.lower c) = Bytes.validHeaderFieldByte c.
Proof. by_bytes c. Qed.

Lemma canon_byte_lower up c : canon_byte up (Bytes.lower c) = canon_byte up c.
Proof. destruct up; by_bytes c. Qed.

Lemma lower_canon_byte up c : Bytes.lower (canon_byte up c) = Bytes.lower c.
Proof. destruct up; by_bytes c. Qed.

Lemma all_valid_ToLower s :
  Bytes.all Bytes.validHeaderFieldByte (ToLower s) = Bytes.all Bytes.validHeaderFieldByte s.
Proof.
  unfold ToLower. induction s as [|c s IH]; simpl; [reflexivity|].
  by rewrite valid_lower, IH.
Qed.

Lemma loop_ToLower s : ∀ up, canonical_loop up (ToLower s) = canonical_loop up s.
Proof.
  unfold ToLower. induction s as [|c s IH]; intros up; simpl; [reflexivity|].
  by rewrite canon_byte_lower, IH.
Qed.

Lemma ToLower_loop s : ∀ up, ToLower (canonical_loop up s) = ToLower s.
Proof.
  unfold ToLower. induction s as [|c s IH]; intros up; simpl; [reflexivity|].
  by rewrite lower_canon_byte, IH.
Qed.

(** Canonicalising never changes a name beyond the case of its letters. *)
Lemma ToLower_Canonical s : ToLower (CanonicalMIMEHeaderKey s) = ToLower s.
Proof.
  unfold CanonicalMIMEHeaderKey.
  destruct (Bytes.all _ s); [apply ToLower_loop | reflexivity].
Qed.

(** Two spellings of a token that differ in case only have one canonical key. *)
Lemma Canonical_fold s t :
  ToLower s = ToLower t →
  Bytes.all Bytes.validHeaderFieldByte t = true →
  CanonicalMIMEHeaderKey s = CanonicalMIMEHeaderKey t.
Proof.
  intros Hst Ht. unfold CanonicalMIMEHeaderKey.
  rewrite Ht, <- (all_valid_ToLower s), Hst, all_valid_ToLower, Ht.
  by rewrite <- (loop_ToLower s), Hst, loop_ToLower.
Qed.

Lemma Canonical_idem s :
  CanonicalMIMEHeaderKey (CanonicalMIMEHeaderKey s) = CanonicalMIMEHeaderKey s.
Proof.
  destruct (Bytes.all Bytes.validHeaderFieldByte s) eqn:Hv.
  - apply Canonical_fold; [apply ToLower_Canonical | exact Hv].
  - assert (CanonicalMIMEHeaderKey s = s) as Hs
      by (unfold CanonicalMIMEHeaderKey; by rewrite Hv).
    by rewrite !Hs.
Qed.

Lemma EqualFold_spec s t : EqualFold s t = true ↔ ToLower s = ToLower t.
Proof. unfold EqualFold. apply bool_decide_eq_true. Qed.

Lemma hop_names_valid h :
  h ∈ hopByHopHeaders → Bytes.all Bytes.validHeaderFieldByte h = true.
Proof.
  unfold hopByHopHeaders. rewrite !elem_of_cons, elem_of_nil.
  intros [->|[->|[->|[->|[->|[]]]]]]; reflexivity.
Qed.

(** A name is hop-by-hop up to case exactly when its canonical key is the
    canonical key of one of the five names, that is, one of the keys that
    [removeHopByHopHeader] deletes. *)
Lemma is_hop_name_canonical name :
  is_hop_name name = true ↔
  CanonicalMIMEHeaderKey name ∈ CanonicalMIMEHeaderKey <$> hopByHopHeaders.
Proof.
  unfold is_hop_name. rewrite existsb_exists, list_elem_of_fmap. split.
  - intros (h & Hin & Hf). exists h. apply list_elem_of_In in Hin.
    split; [|exact Hin].
    apply Canonical_fold; [by apply EqualFold_spec | by apply hop_names_valid].
  - intros (h & Heq & Hin). exists h. split; [by apply list_elem_of_In|].
    apply EqualFold_spec.
    by rewrite <- (ToLower_Canonical name), Heq, ToLower_Canonical.
Qed.

Lemma is_hop_name_Canonical name :
  is_hop_name (CanonicalMIMEHeaderKey name) = is_hop_name name.
Proof.
  apply eq_true_iff_eq. rewrite !is_hop_name_canonical. by rewrite Canonical_idem.
Qed.

End Canon.

(** ** [removeHopByHopHeader] *)

Lemma removeHopByHopHeader_lookup (header : Header) (k : string) :
  removeHopByHopHeader header !! k =
  if bool_decide (k ∈ CanonicalMIMEHeaderKey <$> hopByHopHeaders) then None
  else header !! k.
Proof.
  unfold removeHopByHopHeader, hopByHopHeaders, Hdr.Del. simpl foldl.
  rewrite !lookup_delete, !fmap_cons, fmap_nil.
  case_bool_decide as Hk.
  - repeat (case_decide; [reflexivity|]).
    exfalso. rewrite !elem_of_cons, elem_of_nil in Hk. intuition congruence.
  - rewrite !not_elem_of_cons in Hk.
    repeat (case_decide; [exfalso; intuition congruence|]). reflexivity.
Qed.

Lemma removeHopByHopHeader_canonical (header : Header) :
  Hdr.canonical header → Hdr.canonical (removeHopByHopHeader header).
Proof.
  intros Hc k. rewrite removeHopByHopHeader_lookup.
  case_bool_decide; [by intros [? ?]|apply Hc].
Qed.

(** What a name asked in any case sees after the strip. *)
Lemma removeHopByHopHeader_Values (header : Header) (name : string) :
  Hdr.Values (removeHopByHopHeader header) name =
  if is_hop_name name then [] else Hdr.Values header name.
Proof.
  unfold Hdr.Values, Hdr.index. rewrite removeHopByHopHeader_lookup.
  destruct (is_hop_name name) eqn:Hn.
  - apply Canon.is_hop_name_canonical in Hn. by rewrite bool_decide_eq_true_2.
  - rewrite bool_decide_eq_false_2; [reflexivity|].
    intros Hin. apply Canon.is_hop_name_canonical in Hin. congruence.
Qed.

(** The keys deleted are the canonical spellings of the five names. *)
Lemma hop_key_iff (k : string) :
  k ∈ CanonicalMIMEHeaderKey <$> hopByHopHeaders ↔
  is_hop_name k = true ∧ CanonicalMIMEHeaderKey k = k.
Proof.
  split.
  - intros Hin. assert (CanonicalMIMEHeaderKey k = k) as Hc.
    { apply list_elem_of_fmap in Hin as (h & -> & _). apply Canon.Canonical_idem. }
    split; [|exact Hc]. apply Canon.is_hop_name_canonical. by rewrite Hc.
  - intros [Hn Hc]. apply Canon.is_hop_name_canonical in Hn. by rewrite Hc in Hn.
Qed.

Lemma removeHopByHopHeader_key (header : Header) (k : string) :
  removeHopByHopHeader header !! k =
  if is_hop_name k && bool_decide (CanonicalMIMEHeaderKey k = k)
  then None else header !! k.
Proof.
  rewrite removeHopByHopHeader_lookup.
  destruct (decide (k ∈ CanonicalMIMEHeaderKey <$> hopByHopHeaders)) as [Hin|Hin].
  - rewrite bool_decide_eq_true_2 by done.
    apply hop_key_iff in Hin as [-> Hc]. by rewrite bool_decide_eq_true_2.
  - rewrite bool_decide_eq_false_2 by done.
    destruct (is_hop_name k) eqn:Hn; [|reflexivity]. cbn [andb].
    rewrite bool_decide_eq_false_2; [reflexivity|].
    intros Hc. apply Hin, hop_key_iff. by split.
Qed.

(** On a collection with canonical keys, no key that spells one of the five
    names in any case survives. *)
Lemma removeHopByHopHeader_no_hop_key (header : Header) (k : string) :
  Hdr.canonical header → is_hop_name k = true →
  removeHopByHopHeader header !! k = None.
Proof.
  intros Hc Hk. rewrite removeHopByHopHeader_key, Hk. cbn [andb].
  destruct (decide (CanonicalMIMEHeaderKey k = k)) as [Hck|Hck].
  { by rewrite bool_decide_eq_true_2. }
  rewrite bool_decide_eq_false_2 by done.
  destruct (header !! k) eqn:E; [|reflexivity].
  exfalso. apply Hck, Hc. by rewrite E.
Qed.

(** [Set] and [Add] file values under canonical keys, so collections built
    through them (as the parsers of [net/http] build theirs) have canonical
    keys. *)
Lemma canonical_empty : Hdr.canonical ∅.
Proof. intros k [v Hk]. by rewrite lookup_empty in Hk. Qed.

Lemma canonical_insert (h : Header) (k : string) (vv : list string) :
  CanonicalMIMEHeaderKey k = k → Hdr.canonical h → Hdr.canonical (<[k := vv]> h).
Proof.
  intros Hk Hc j. rewrite lookup_insert. case_decide; [by subst | apply Hc].
Qed.

Lemma Hdr_Set_canonical (h : Header) (key value : string) :
  Hdr.canonical h → Hdr.canonical (Hdr.Set_ h key value).
Proof. apply canonical_insert, Canon.Canonical_idem. Qed.

Lemma Hdr_Add_canonical (h : Header) (key value : string) :
  Hdr.canonical h → Hdr.canonical (Hdr.Add h key value).
Proof. apply canonical_insert, Canon.Canonical_idem. Qed.

(** C6. For every header collection, [removeHopByHopHeader] removes all
    values of the five names [Proxy-Connection], [Keep-Alive], [TE],
    [Transfer-Encoding] and [Upgrade], whatever the case the name is asked
    in, and leaves the values of every other name as they were, in the same
    order. At the level of the map, the keys deleted are exactly the
    canonical spellings of the five names and every other key keeps its
    entry; on a collection with canonical keys no key that spells one of the
    five names in any case is left. *)
Theorem removeHopByHopHeader_strips (header : Header) :
  (∀ name, Hdr.Values (removeHopByHopHeader header) name =
           if is_hop_name name then [] else Hdr.Values header name) ∧
  (∀ k, removeHopByHopHeader header !! k =
        if is_hop_name k && bool_decide (CanonicalMIMEHeaderKey k = k)
        then None else header !! k) ∧
  (Hdr.canonical header →
   ∀ k, removeHopByHopHeader header !! k = if is_hop_name k then None else header !! k).
Proof.
  split; [|split].
  - apply removeHopByHopHeader_Values.
  - apply removeHopByHopHeader_key.
  - intros Hc k. destruct (is_hop_name k) eqn:Hk.
    + by apply removeHopByHopHeader_no_hop_key.
    + by rewrite removeHopByHopHeader_key, Hk.
Qed.

Lemma removeHopByHopHeader_strips_witness :
  let header : Header :=
    <["Te" := ["trailers"]]> (<["Keep-Alive" := ["timeout=5"; "max=9"]]>
      (<["Accept" := ["a"; "b"]]> ∅)) in
  Hdr.Values (removeHopByHopHeader header) "keep-alive" = [] ∧
  Hdr.Values (removeHopByHopHeader header) "TE" = [] ∧
  Hdr.Values (removeHopByHopHeader header) "accept" = ["a"; "b"] ∧
  removeHopByHopHeader header !! "Keep-Alive" = None.
Proof.
  intros header.
  destruct (removeHopByHopHeader_strips header) as (Hv & _ & Hk).
  split; [exact (Hv "keep-alive")|]. split; [exact (Hv "TE")|].
  split; [exact (Hv "accept")|].
  apply (Hk ltac:(repeat apply canonical_insert; (reflexivity || apply canonical_empty))
            "Keep-Alive").
Defined.

Example is_hop_name_cases :
  is_hop_name "keep-alive" = true ∧ is_hop_name "tE" = true ∧
  is_hop_name "UPGRADE" = true ∧ is_hop_name "Connection" = false ∧
  is_hop_name "Keep-Alive2" = false.
Proof. by vm_compute. Qed.

Example removeHopByHopHeader_run :
  removeHopByHopHeader
    (<["Te" := ["trailers"]]> (<["Keep-Alive" := ["timeout=5"; "max=9"]]>
      (<["Accept" := ["a"; "b"]]> (<["Upgrade" := ["h2c"]]> ∅)))) =
  {[ "Accept" := ["a"; "b"] ]}.
Proof. by vm_compute. Qed.

(** ** [addHost2XForwardHeader] *)

Lemma append_assoc (a b c : string) : (a +:+ b) +:+ c = a +:+ b +:+ c.
Proof.
  induction a as [|x a IH]; [reflexivity|].
  change (String x ((a +:+ b) +:+ c) = String x (a +:+ b +:+ c)).
  by rewrite IH.
Qed.

(** Joining a non-empty chain extended by one entry is the joined chain,
    the separator, and the new entry. *)
Lemma strings_Join_snoc (elems : list string) (sep last : string) :
  elems ≠ [] →
  strings_Join (elems ++ [last]) sep = strings_Join elems sep +:+ sep +:+ last.
Proof.
  induction elems as [|e [|e' rest] IH]; intros Hne; [done | reflexivity |].
  change (strings_Join ((e :: e' :: rest) ++ [last]) sep)
    with (e +:+ sep +:+ strings_Join ((e' :: rest) ++ [last]) sep).
  rewrite IH by done.
  change (strings_Join (e :: e' :: rest) sep)
    with (e +:+ sep +:+ strings_Join (e' :: rest) sep).
  by rewrite !append_assoc.
Qed.

Lemma addHost2XForwardHeader_lookup (header : Header) (host k : string) :
  addHost2XForwardHeader header host !! k =
  if decide ("X-Forwarded-For" = k)
  then Some [match header !! "X-Forwarded-For" with
             | Some prior => strings_Join prior ", " +:+ ", " +:+ host
             | None => ""
             end]
  else header !! k.
Proof.
  unfold addHost2XForwardHeader, Hdr.Set_.
  change (CanonicalMIMEHeaderKey "X-Forwarded-For") with "X-Forwarded-For".
  apply lookup_insert.
Qed.

(** With no [X-Forwarded-For] entry the header is set to the empty string:
    [nextValue] keeps its initial value and the host is not used. *)
Lemma addHost2XForwardHeader_absent (header : Header) (host : string) :
  header !! "X-Forwarded-For" = None →
  addHost2XForwardHeader header host !! "X-Forwarded-For" = Some [""].
Proof.
  intros Hno. rewrite addHost2XForwardHeader_lookup, Hno.
  by rewrite decide_True.
Qed.

Lemma addHost2XForwardHeader_present (header : Header) (prior : list string) (host : string) :
  header !! "X-Forwarded-For" = Some prior →
  addHost2XForwardHeader header host !! "X-Forwarded-For" =
  Some [strings_Join prior ", " +:+ ", " +:+ host].
Proof.
  intros Hp. rewrite addHost2XForwardHeader_lookup, Hp.
  by rewrite decide_True.
Qed.

(** Every other header is left as it was. *)
Lemma addHost2XForwardHeader_other (header : Header) (host k : string) :
  k ≠ "X-Forwarded-For" →
  addHost2XForwardHeader header host !! k = header !! k.
Proof.
  intros Hk. rewrite addHost2XForwardHeader_lookup.
  by rewrite decide_False.
Qed.

(** C2. On the empty header collection and the client host [203.0.113.9],
    [addHost2XForwardHeader] leaves [X-Forwarded-For] with the single value
    [""], not with the client host. *)
Theorem addHost2XForwardHeader_empty_drops_host :
  addHost2XForwardHeader ∅ "203.0.113.9" !! "X-Forwarded-For" = Some [""] ∧
  Hdr.Values (addHost2XForwardHeader ∅ "203.0.113.9") "X-Forwarded-For" ≠ ["203.0.113.9"] ∧
  Hdr.Get (addHost2XForwardHeader ∅ "203.0.113.9") "X-Forwarded-For" = "".
Proof.
  assert (addHost2XForwardHeader ∅ "203.0.113.9" !! "X-Forwarded-For" = Some [""]) as H
    by (by apply addHost2XForwardHeader_absent).
  unfold Hdr.Get, Hdr.Values, Hdr.index.
  change (CanonicalMIMEHeaderKey "X-Forwarded-For") with "X-Forwarded-For".
  rewrite H. simpl. split; [reflexivity|]. split; [discriminate | reflexivity].
Qed.

(** C7. When the collection already has one or more [X-Forwarded-For]
    values, [addHost2XForwardHeader] leaves the comma-joined chain of the
    prior values followed by [", "] and the client host: the prior chain is
    kept verbatim as a prefix, and the result is the chain of
    [prior ++ [host]], so every prior entry is kept, once, in its original
    order, and the host comes last. *)
Theorem addHost2XForwardHeader_appends
    (header : Header) (prior : list string) (host : string) :
  header !! "X-Forwarded-For" = Some prior →
  prior ≠ [] →
  addHost2XForwardHeader header host !! "X-Forwarded-For" =
    Some [strings_Join (prior ++ [host]) ", "] ∧
  strings_Join (prior ++ [host]) ", " = strings_Join prior ", " +:+ ", " +:+ host.
Proof.
  intros Hp Hne. rewrite (addHost2XForwardHeader_present _ _ _ Hp).
  by rewrite strings_Join_snoc.
Qed.

Lemma addHost2XForwardHeader_appends_witness :
  addHost2XForwardHeader {[ "X-Forwarded-For" := ["a, b"] ]} "c" !! "X-Forwarded-For" =
  Some ["a, b, c"].
Proof.
  apply (addHost2XForwardHeader_appends {[ "X-Forwarded-For" := ["a, b"] ]} ["a, b"] "c").
  - reflexivity.
  - discriminate.
Defined.

(** The sanitised collection keeps canonical keys. *)
Lemma addHost2XForwardHeader_canonical (header : Header) (host : string) :
  Hdr.canonical header → Hdr.canonical (addHost2XForwardHeader header host).
Proof. apply Hdr_Set_canonical. Qed.

(** C10. When [X-Forwarded-For] arrives as several separate values,
    [addHost2XForwardHeader] replaces them all by exactly one value: the
    prior values joined by [", "] in their order, then [", "] and the
    client host. *)
Theorem addHost2XForwardHeader_collapses
    (header : Header) (prior : list string) (host : string) :
  header !! "X-Forwarded-For" = Some prior →
  (2 ≤ length prior)%nat →
  Hdr.Values (addHost2XForwardHeader header host) "X-Forwarded-For" =
    [strings_Join prior ", " +:+ ", " +:+ host] ∧
  length (Hdr.Values (addHost2XForwardHeader header host) "X-Forwarded-For") = 1%nat ∧
  strings_Join prior ", " +:+ ", " +:+ host = strings_Join (prior ++ [host]) ", ".
Proof.
  intros Hp Hlen. unfold Hdr.Values, Hdr.index.
  change (CanonicalMIMEHeaderKey "X-Forwarded-For") with "X-Forwarded-For".
  rewrite (addHost2XForwardHeader_present _ _ _ Hp). simpl.
  split; [reflexivity|]. split; [reflexivity|].
  symmetry. apply strings_Join_snoc.
  destruct prior; [simpl in Hlen; lia | discriminate].
Qed.

Lemma addHost2XForwardHeader_collapses_witness :
  Hdr.Values (addHost2XForwardHeader {[ "X-Forwarded-For" := ["a"; "b, c"; "d"] ]} "e")
             "X-Forwarded-For" = ["a, b, c, d, e"].
Proof.
  apply (addHost2XForwardHeader_collapses
           {[ "X-Forwarded-For" := ["a"; "b, c"; "d"] ]} ["a"; "b, c"; "d"] "e").
  - reflexivity.
  - simpl. lia.
Defined.

(** ** [copyHeader] *)

Lemma Hdr_Add_lookup (d : Header) (k v j : string) :
  Hdr.Add d k v !! j =
  if decide (CanonicalMIMEHeaderKey k = j) then Some (Hdr.index d j ++ [v])%list
  else d !! j.
Proof.
  unfold Hdr.Add. cbv zeta. rewrite lookup_insert.
  case_decide; [by subst | reflexivity].
Qed.

Lemma Hdr_Add_index (d : Header) (k v j : string) :
  Hdr.index (Hdr.Add d k v) j =
  (Hdr.index d j ++ (if decide (CanonicalMIMEHeaderKey k = j) then [v] else []))%list.
Proof.
  unfold Hdr.index at 1. rewrite Hdr_Add_lookup.
  case_decide; simpl; [reflexivity | by rewrite app_nil_r].
Qed.

(** The inner loop: all values of one entry, appended in order. *)
Lemma add_values_index (vv : list string) : ∀ (d : Header) (k j : string),
  Hdr.index (foldl (fun d' v => Hdr.Add d' k v) d vv) j =
  (Hdr.index d j ++ (if decide (CanonicalMIMEHeaderKey k = j) then vv else []))%list.
Proof.
  induction vv as [|v vv IH]; intros d k j; simpl.
  - by case_decide; rewrite app_nil_r.
  - rewrite IH, Hdr_Add_index. case_decide; by rewrite <- app_assoc.
Qed.

Lemma add_values_is_Some (vv : list string) : ∀ (d : Header) (k j : string),
  is_Some (d !! j) → is_Some (foldl (fun d' v => Hdr.Add d' k v) d vv !! j).
Proof.
  induction vv as [|v vv IH]; intros d k j Hj; simpl; [exact Hj|].
  apply IH. rewrite Hdr_Add_lookup. case_decide; [eauto | exact Hj].
Qed.

(** The outer loop: what each key holds after the pass. *)
Lemma copyHeader_from_index (entries : list (string * list string)) :
  ∀ (dst : Header) (j : string),
  Hdr.index (copyHeader_from entries dst) j = (Hdr.index dst j ++ added entries j)%list.
Proof.
  unfold copyHeader_from, added.
  induction entries as [|[k vv] entries IH]; intros dst j; simpl.
  - by rewrite app_nil_r.
  - rewrite IH, add_values_index. by rewrite <- app_assoc.
Qed.

Lemma copyHeader_from_is_Some (entries : list (string * list string)) :
  ∀ (dst : Header) (j : string),
  is_Some (dst !! j) → is_Some (copyHeader_from entries dst !! j).
Proof.
  unfold copyHeader_from.
  induction entries as [|[k vv] entries IH]; intros dst j Hj; simpl; [exact Hj|].
  by apply IH, add_values_is_Some.
Qed.

Lemma added_app (l1 l2 : list (string * list string)) (j : string) :
  added (l1 ++ l2) j = (added l1 j ++ added l2 j)%list.
Proof. unfold added. by rewrite flat_map_app. Qed.

Lemma added_none (l : list (string * list string)) (j : string) :
  (∀ e, e ∈ l → CanonicalMIMEHeaderKey e.1 ≠ j) → added l j = [].
Proof.
  unfold added. induction l as [|e l IH]; intros Hl; simpl; [reflexivity|].
  rewrite decide_False by (apply Hl; left).
  apply IH. intros e' He'. apply Hl. by right.
Qed.

(** Passing over the entries of a map with canonical keys, in any order,
    adds under each key exactly the values the map holds there. *)
Lemma added_canonical (src : Header) (entries : list (string * list string)) (j : string) :
  entries ≡ₚ map_to_list src → Hdr.canonical src →
  added entries j = Hdr.index src j.
Proof.
  intros Hperm Hc.
  assert (Hin : ∀ k vv, (k, vv) ∈ entries ↔ src !! k = Some vv).
  { intros k vv. rewrite Hperm. apply elem_of_map_to_list. }
  assert (Hnd : NoDup entries.*1).
  { rewrite Hperm. apply NoDup_fst_map_to_list. }
  assert (Hkey : ∀ e, e ∈ entries → CanonicalMIMEHeaderKey e.1 = e.1).
  { intros [k vv] He. apply Hc. apply Hin in He. simpl. by rewrite He. }
  unfold Hdr.index. destruct (src !! j) as [vv|] eqn:Hj; simpl.
  - apply Hin in Hj. apply list_elem_of_split in Hj as (l1 & l2 & Hl).
    rewrite Hl in Hnd, Hkey. rewrite Hl, added_app. simpl.
    rewrite fmap_app, fmap_cons in Hnd. simpl in Hnd.
    apply NoDup_app in Hnd as (_ & Hd1 & Hd2). apply NoDup_cons in Hd2 as [Hd2 _].
    rewrite (added_none l1), (added_none l2).
    + unfold added. simpl. rewrite decide_True; [by rewrite !app_nil_r|].
      apply (Hkey (j, vv)). apply elem_of_app. right. left.
    + intros e He. rewrite Hkey by (apply elem_of_app; right; by right).
      intros <-. apply Hd2. apply list_elem_of_fmap. eauto.
    + intros e He. rewrite Hkey by (apply elem_of_app; by left).
      intros <-. apply (Hd1 e.1); [apply list_elem_of_fmap; eauto | left].
  - apply added_none. intros [k vv] He. rewrite (Hkey _ He). simpl. intros ->.
    apply Hin in He. congruence.
Qed.


(** C8. For every pair of collections [dst] and [src], whatever the order
    in which the entries of [src] are visited: after [copyHeader] each key
    of [dst] holds its former values followed by the values copied under it,
    so no value of [dst] is overwritten, removed or moved, and no key of
    [dst] disappears; every header of [src] has all its values, in their
    order, among the values added under its canonical key; and when the keys
    of [src] are canonical (as the keys of a parsed response are) each key
    holds the values of [dst] followed by exactly the values of [src]. *)
Theorem copyHeader_additive (dst src : Header) (entries : list (string * list string)) :
  entries ≡ₚ map_to_list src →
  (∀ k, Hdr.index (copyHeader_from entries dst) k = Hdr.index dst k ++ added entries k)%list ∧
  (∀ k, is_Some (dst !! k) → is_Some (copyHeader_from entries dst !! k)) ∧
  (∀ k vv, src !! k = Some vv →
     ∃ before after,
       Hdr.index (copyHeader_from entries dst) (CanonicalMIMEHeaderKey k) =
       (Hdr.index dst (CanonicalMIMEHeaderKey k) ++ before ++ vv ++ after)%list) ∧
  (Hdr.canonical src →
   ∀ k, Hdr.index (copyHeader_from entries dst) k = Hdr.index dst k ++ Hdr.index src k)%list.
Proof.
  intros Hperm. split; [|split; [|split]].
  - intros k. apply copyHeader_from_index.
  - intros k. apply copyHeader_from_is_Some.
  - intros k vv Hk.
    assert ((k, vv) ∈ entries) as Hin by (rewrite Hperm; by apply elem_of_map_to_list).
    apply list_elem_of_split in Hin as (l1 & l2 & ->).
    exists (added l1 (CanonicalMIMEHeaderKey k)), (added l2 (CanonicalMIMEHeaderKey k)).
    rewrite copyHeader_from_index, added_app. do 2 f_equal.
    unfold added. simpl. by rewrite decide_True.
  - intros Hc k. rewrite copyHeader_from_index. f_equal. by apply added_canonical.
Qed.


Lemma copyHeader_additive_witness :
  Hdr.index (copyHeader_from [("Set-Cookie", ["a=1"; "b=2"]); ("Vary", ["Accept"])]
               {[ "Set-Cookie" := ["z=0"] ]}) "Set-Cookie" = ["z=0"; "a=1"; "b=2"].
Proof.
  pose proof (copyHeader_additive {[ "Set-Cookie" := ["z=0"] ]}
                {[ "Set-Cookie" := ["a=1"; "b=2"]; "Vary" := ["Accept"] ]}
                [("Set-Cookie", ["a=1"; "b=2"]); ("Vary", ["Accept"])]) as H.
  destruct H as [H _].
  - by vm_compute.
  - exact (H "Set-Cookie").
Defined.

Example copyHeader_run :
  copyHeader {[ "Set-Cookie" := ["z=0"] ]}
             {[ "Set-Cookie" := ["a=1"; "b=2"]; "Vary" := ["Accept"] ]} =
  {[ "Set-Cookie" := ["z=0"; "a=1"; "b=2"]; "Vary" := ["Accept"] ]}.
Proof. by vm_compute. Qed.

(** [Add] files a value under the canonical key, whatever the case of the
    name in [src]. *)
Example copyHeader_lowercase_source :
  copyHeader {[ "Vary" := ["Accept"] ]} {[ "vary" := ["Origin"] ]} =
  {[ "Vary" := ["Accept"; "Origin"] ]}.
Proof. by vm_compute. Qed.

(** ** [net.IPNet.Contains] on a host that is not an IP literal *)

Lemma To4_length (ip : net.IP) : net.To4 ip = [] ∨ length (net.To4 ip) = 4%nat.
Proof.
  unfold net.To4, net.IPv4len, net.IPv6len.
  destruct (Nat.eqb_spec (length ip) 4) as [H4|H4]; [by right|].
  destruct (Nat.eqb_spec (length ip) 16) as [H16|H16]; [|by left].
  cbn [andb]. destruct (net.isZeros _ && _ && _); [right | by left].
  rewrite length_drop, length_take. lia.
Qed.

(** The network number of a network built by [ParseCIDR] is not empty. *)
Lemma networkNumber_nonempty (n : net.IPNet) :
  net.sized n → (net.networkNumberAndMask n).1 ≠ [].
Proof.
  intros Hs. unfold net.networkNumberAndMask, net.IPv4len, net.IPv6len.
  destruct (net.To4 (net.IPNet_IP n)) as [|a ip4] eqn:H4.
  - assert (length (net.IPNet_IP n) = 16%nat ∧ length (net.IPNet_Mask n) = 16%nat)
      as [Hi Hm].
    { destruct Hs as [[Hi Hm]|Hs]; [|exact Hs].
      unfold net.To4, net.IPv4len in H4. rewrite Hi in H4. simpl in H4.
      rewrite H4 in Hi. discriminate Hi. }
    rewrite Hi, Hm. simpl. intros E. rewrite E in Hi. discriminate Hi.
  - assert (length (a :: ip4) = 4%nat) as Hl.
    { destruct (To4_length (net.IPNet_IP n)) as [E|E]; rewrite H4 in E;
        [discriminate E | exact E]. }
    rewrite Hl.
    destruct Hs as [[_ Hm]|[_ Hm]]; rewrite Hm; simpl; discriminate.
Qed.

(** A network built by [ParseCIDR] never contains the [nil] address. *)
Lemma Contains_nil (n : net.IPNet) : net.sized n → net.Contains n [] = false.
Proof.
  intros Hs. apply networkNumber_nonempty in Hs. unfold net.Contains.
  destruct (net.networkNumberAndMask n) as [nn m]. simpl in Hs.
  destruct nn as [|b nn]; [done | reflexivity].
Qed.

Lemma net4_octets (s : string) (p : list Z) :
  net4.parseIPv4 s = Some p → length p = 4%nat.
Proof.
  unfold net4.parseIPv4.
  destruct (net4.split_on "." s) as [|a [|b [|c [|d [|]]]]]; try discriminate.
  destruct (net4.octet a), (net4.octet b), (net4.octet c), (net4.octet d);
    try discriminate.
  by intros [= <-].
Qed.

Lemma net4_CIDRMask_length (len : nat) : ∀ ones, length (net4.CIDRMask ones len) = len.
Proof.
  induction len as [|len IH]; intros ones; simpl; [reflexivity|].
  destruct (8 <=? ones)%Z; simpl; by rewrite IH.
Qed.

(** The concrete library builds networks of the documented sizes. *)
Lemma net4_cidr_sized : net.cidr_sized net4.lib.
Proof.
  intros s n. simpl. unfold net4.ParseCIDR.
  destruct (net4.index_byte "/" s) as [i|]; [|discriminate].
  destruct (net4.parseIPv4 _) as [ip|] eqn:Hip; [|discriminate].
  destruct (net4.dtoi _) as [ones|]; [|discriminate].
  destruct (ones <=? 32)%Z; [|discriminate].
  pose proof (net4_CIDRMask_length 4 ones) as Hm. cbv zeta. revert Hm.
  generalize (net4.CIDRMask ones 4). intros m Hm [= <-]. left.
  cbn [net.IPNet_IP net.IPNet_Mask].
  apply net4_octets in Hip.
  rewrite length_zip_with, Hip, Hm. split; reflexivity.
Qed.

(** ** [Profile.MatchRule] *)

Section MatchRuleFacts.

Variable L : net.Lib.

Lemma match_patterns_scan (path : string) (rule : Rule) (ptns : list string)
    (rest : list (Rule * string)) :
  match match_patterns L path rule ptns with
  | Some r => r
  | None => scan L path rest
  end = scan L path (map (pair rule) ptns ++ rest).
Proof.
  induction ptns as [|ptn ptns IH]; simpl; [reflexivity|].
  destruct (net.ParseCIDR L ptn) as [ipNet|err]; [|reflexivity].
  destruct (net.Contains ipNet _); [reflexivity | exact IH].
Qed.

(** The nested loops visit the patterns in declared order. *)
Lemma match_rules_scan (path : string) (rules : list Rule) :
  match_rules L path rules = scan L path (declared rules).
Proof.
  induction rules as [|rule rules IH]; simpl; [reflexivity|].
  rewrite IH. apply match_patterns_scan.
Qed.

Lemma scan_skips (path : string) (pre rest : list (Rule * string)) :
  (∀ x, x ∈ pre →
     pattern_parses L x.2 = true ∧ pattern_contains L path x.2 = false) →
  scan L path (pre ++ rest) = scan L path rest.
Proof.
  induction pre as [|[r ptn] pre IH]; intros Hpre; simpl; [reflexivity|].
  destruct (Hpre (r, ptn)) as [Hp Hc]; [left|].
  unfold pattern_parses, pattern_contains in Hp, Hc. simpl in Hp, Hc.
  destruct (net.ParseCIDR L ptn) as [ipNet|err]; [|discriminate].
  rewrite Hc. apply IH. intros x Hx. apply Hpre. by right.
Qed.

Lemma scan_hit (path : string) (r : Rule) (ptn : string) (rest : list (Rule * string)) :
  pattern_contains L path ptn = true → scan L path ((r, ptn) :: rest) = (r, None).
Proof.
  unfold pattern_contains. simpl.
  destruct (net.ParseCIDR L ptn) as [ipNet|err]; [|discriminate].
  by intros ->.
Qed.

Lemma scan_bad (path : string) (r : Rule) (ptn : string) (e : net.Error)
    (rest : list (Rule * string)) :
  net.ParseCIDR L ptn = inr e →
  scan L path ((r, ptn) :: rest) = (zeroRule, Some (LibError e)).
Proof. simpl. by intros ->. Qed.

Lemma find_first {A} (f : A → bool) (l : list A) :
  match find f l with
  | Some x => ∃ pre post, l = pre ++ x :: post ∧ f x = true ∧ ∀ y, y ∈ pre → f y = false
  | None => ∀ y, y ∈ l → f y = false
  end.
Proof.
  induction l as [|a l IH]; simpl.
  - intros y Hy. by apply elem_of_nil in Hy.
  - destruct (f a) eqn:Ha.
    + exists [], l. split; [reflexivity|]. split; [exact Ha|].
      intros y Hy. by apply elem_of_nil in Hy.
    + destruct (find f l) as [x|].
      * destruct IH as (pre & post & -> & Hx & Hpre).
        exists (a :: pre), post. split; [reflexivity|]. split; [exact Hx|].
        intros y Hy. apply elem_of_cons in Hy as [->|Hy]; [exact Ha | by apply Hpre].
      * intros y Hy. apply elem_of_cons in Hy as [->|Hy]; [exact Ha | by apply IH].
Qed.

Lemma all_parse_forallb (p : Profile) :
  forallb (fun rp => pattern_parses L rp.2) (declared (Rules p)) = true → all_parse L p.
Proof.
  intros H rp Hin. rewrite forallb_forall in H. apply H. by apply list_elem_of_In.
Qed.

(** [MatchRule] computes the specification's [first_match] when every
    pattern parses. *)
Lemma MatchRule_refines (p : Profile) (path : string) :
  all_parse L p →
  MatchRule L p path =
  match first_match L p path with
  | Some r => (r, None)
  | None => (zeroRule, Some ErrNotFoundRule)
  end.
Proof.
  intros Hall. unfold MatchRule, first_match. rewrite match_rules_scan.
  pose proof (find_first (fun rp => pattern_contains L path rp.2) (declared (Rules p))) as Hf.
  destruct (find _ _) as [[r ptn]|]; simpl.
  - destruct Hf as (pre & post & Hl & Hx & Hpre). rewrite Hl, scan_skips.
    + by apply scan_hit.
    + intros x Hx'. split; [|by apply Hpre].
      apply Hall. rewrite Hl. apply elem_of_app. by left.
  - rewrite <- (app_nil_r (declared _)), scan_skips; [reflexivity|].
    intros x Hx. split; [by apply Hall | by apply Hf].
Qed.

End MatchRuleFacts.

(** C1. For every profile whose patterns all parse as CIDR blocks and
    every host: either some pattern contains the parsed host, and then
    [MatchRule] returns, with no error, the rule of the first such pattern
    in declared order (rules in order, patterns in order within a rule, no
    earlier pattern containing the host); or no pattern contains the host,
    and then [MatchRule] returns the sentinel [ErrNotFoundRule] with the
    zero rule. *)
Theorem MatchRule_first_match (L : net.Lib) (p : Profile) (path : string) :
  all_parse L p →
  (∃ pre r ptn post,
     declared (Rules p) = pre ++ (r, ptn) :: post ∧
     (∀ x, x ∈ pre → pattern_contains L path x.2 = false) ∧
     pattern_contains L path ptn = true ∧
     first_match L p path = Some r ∧
     MatchRule L p path = (r, None)) ∨
  ((∀ x, x ∈ declared (Rules p) → pattern_contains L path x.2 = false) ∧
   first_match L p path = None ∧
   MatchRule L p path = (zeroRule, Some ErrNotFoundRule)).
Proof.
  intros Hall. rewrite (MatchRule_refines L p path Hall). unfold first_match.
  pose proof (find_first (fun rp => pattern_contains L path rp.2) (declared (Rules p))) as Hf.
  destruct (find _ _) as [[r ptn]|]; simpl.
  - left. destruct Hf as (pre & post & Hl & Hx & Hpre).
    exists pre, r, ptn, post. by repeat split.
  - right. by repeat split.
Qed.

Lemma MatchRule_first_match_witness :
  MatchRule net4.lib (Scenario.mk [Scenario.office; Scenario.internal]) "10.1.2.3"
  = (Scenario.office, None).
Proof.
  destruct (MatchRule_first_match net4.lib
              (Scenario.mk [Scenario.office; Scenario.internal]) "10.1.2.3")
    as [(pre & r & ptn & post & _ & _ & _ & Hf & Hm)|(_ & Hf & _)].
  - apply all_parse_forallb. vm_compute. reflexivity.
  - rewrite Hm. vm_compute in Hf. injection Hf as <-. reflexivity.
  - vm_compute in Hf. discriminate Hf.
Defined.

(** C3. When evaluation in declared order reaches a pattern that does not
    parse as a CIDR block (every earlier pattern parses and does not contain
    the host), [MatchRule] returns the zero rule and the parser's error, which
    is not [ErrNotFoundRule] and which the handler treats as a hard failure;
    the result does not depend on what is declared after that pattern. *)
Theorem MatchRule_malformed_aborts (L : net.Lib) (p : Profile) (path : string)
    (pre post : list (Rule * string)) (r : Rule) (bad : string) (e : net.Error) :
  declared (Rules p) = pre ++ (r, bad) :: post →
  (∀ x, x ∈ pre → pattern_parses L x.2 = true ∧ pattern_contains L path x.2 = false) →
  net.ParseCIDR L bad = inr e →
  MatchRule L p path = (zeroRule, Some (LibError e)) ∧
  LibError e ≠ ErrNotFoundRule ∧
  is_hard_failure (MatchRule L p path).2 = true ∧
  (∀ p' post', declared (Rules p') = pre ++ (r, bad) :: post' →
     MatchRule L p' path = MatchRule L p path).
Proof.
  intros Hl Hpre Hbad.
  assert (∀ q post', declared (Rules q) = pre ++ (r, bad) :: post' →
            MatchRule L q path = (zeroRule, Some (LibError e))) as Hany.
  { intros q post' Hq. unfold MatchRule.
    rewrite match_rules_scan, Hq, scan_skips by exact Hpre.
    by apply scan_bad. }
  rewrite (Hany p post Hl). split; [reflexivity|]. split; [discriminate|].
  split; [reflexivity|]. intros p' post' Hp'. by apply (Hany p' post').
Qed.

Lemma MatchRule_malformed_aborts_witness :
  MatchRule net4.lib
    (Scenario.mk [Scenario.office; Scenario.broken; Scenario.everything]) "8.8.8.8"
  = (zeroRule, Some (LibError (net.ParseError "CIDR address" "not-a-cidr"))).
Proof.
  apply (MatchRule_malformed_aborts net4.lib
           (Scenario.mk [Scenario.office; Scenario.broken; Scenario.everything]) "8.8.8.8"
           [(Scenario.office, "172.16.0.0/12"); (Scenario.office, "10.1.0.0/16")]
           [(Scenario.broken, "10.0.0.0/8"); (Scenario.everything, "0.0.0.0/0")]
           Scenario.broken "not-a-cidr").
  - reflexivity.
  - intros x Hx. rewrite !elem_of_cons, elem_of_nil in Hx.
    destruct Hx as [->|[->|[]]]; vm_compute; by split.
  - reflexivity.
Defined.

(** The patterns after the malformed one would have matched the host. *)
Example later_patterns_would_match :
  pattern_contains net4.lib "8.8.8.8" "0.0.0.0/0" = true ∧
  MatchRule net4.lib (Scenario.mk [Scenario.office; Scenario.everything]) "8.8.8.8"
  = (Scenario.everything, None).
Proof. by vm_compute. Qed.

(** C4. For every profile whose patterns all parse (to networks of the
    sizes [ParseCIDR] builds) and every host that does not parse as an IP
    address, no pattern contains the host, the universal pattern included;
    evaluation passes every pattern and [MatchRule] returns
    [ErrNotFoundRule]. *)
Theorem MatchRule_unparsed_host (L : net.Lib) (p : Profile) (path : string) :
  net.cidr_sized L →
  all_parse L p →
  net.ParseIP L path = [] →
  (∀ ptn, pattern_contains L path ptn = false) ∧
  MatchRule L p path = (zeroRule, Some ErrNotFoundRule).
Proof.
  intros Hsized Hall Hip.
  assert (∀ ptn, pattern_contains L path ptn = false) as Hno.
  { intros ptn. unfold pattern_contains.
    destruct (net.ParseCIDR L ptn) as [n|] eqn:Hn; [|reflexivity].
    rewrite Hip. apply Contains_nil. by apply (Hsized ptn). }
  split; [exact Hno|].
  unfold MatchRule. rewrite match_rules_scan.
  rewrite <- (app_nil_r (declared _)), scan_skips; [reflexivity|].
  intros x Hx. split; [by apply Hall | apply Hno].
Qed.

Lemma MatchRule_unparsed_host_witness :
  pattern_contains net4.lib "example.com" "0.0.0.0/0" = false ∧
  MatchRule net4.lib (Scenario.mk [Scenario.internal; Scenario.everything]) "example.com"
  = (zeroRule, Some ErrNotFoundRule).
Proof.
  destruct (MatchRule_unparsed_host net4.lib
              (Scenario.mk [Scenario.internal; Scenario.everything]) "example.com")
    as [Hno Hm].
  - exact net4_cidr_sized.
  - apply all_parse_forallb. vm_compute. reflexivity.
  - reflexivity.
  - split; [apply Hno | exact Hm].
Defined.

Example MatchRule_scenarios :
  MatchRule net4.lib (Scenario.mk [Scenario.internal]) "10.1.2.3" = (Scenario.internal, None) ∧
  MatchRule net4.lib (Scenario.mk [Scenario.internal]) "8.8.8.8"
    = (zeroRule, Some ErrNotFoundRule) ∧
  MatchRule net4.lib (Scenario.mk [Scenario.everything]) "" = (zeroRule, Some ErrNotFoundRule).
Proof. by vm_compute. Qed.

(** ** The request handler *)

Lemma unsupported_scheme_spec (scheme : string) :
  unsupported_scheme scheme = true ↔ scheme ≠ "http" ∧ scheme ≠ "https".
Proof.
  unfold unsupported_scheme.
  rewrite andb_true_iff, !negb_true_iff, !String.eqb_neq. reflexivity.
Qed.

Lemma http_Error_status (w : http.ResponseWriter) (msg : string) (code : Z) :
  http.rw_status w = None → http.rw_status (http.Error w msg code) = Some code.
Proof.
  intros Hw. unfold http.Error, http.Write, http.WriteHeader, http.with_Header.
  simpl. rewrite Hw. reflexivity.
Qed.

Lemma http_Error_body (w : http.ResponseWriter) (msg : string) (code : Z) :
  http.rw_body (http.Error w msg code) = http.rw_body w +:+ msg +:+ http.newline.
Proof.
  unfold http.Error, http.Write, http.WriteHeader, http.with_Header. simpl.
  by destruct (http.rw_status w).
Qed.

(** Nothing in the tail of the handler ends the process. *)
Lemma relay_exited (O : Outbound) (note : string → Run → Run)
    (client : Client) (req : http.Request) (r : Run) :
  (∀ m r', exited (note m r') = exited r') →
  exited (relay O note client req r) = exited r.
Proof.
  intros Hnote. unfold relay.
  destruct (Do O client req) as [res|err]; simpl.
  - destruct (Copy O (http.res_Body res)) as [written [cerr|]]; simpl;
      [by rewrite Hnote | reflexivity].
  - by rewrite Hnote.
Qed.

(** The handler of [src/main.go] returns on every path: no request makes
    it end the process. *)
Lemma MainGo_never_exits (L : net.Lib) (O : Outbound) (s : H2SProxyServer)
    (w : http.ResponseWriter) (req : http.Request) :
  exited (MainGo.proxyHandler L O s w req) = None.
Proof.
  unfold MainGo.proxyHandler.
  destruct (unsupported_scheme _); [reflexivity|].
  destruct (net.SplitHostPort L _) as [[host port]|err]; [|reflexivity].
  destruct (MatchRule L (profile s) host) as [rule err].
  destruct (is_hard_failure err); [reflexivity|].
  destruct err as [e|].
  - by rewrite relay_exited.
  - destruct (SOCKS5 O _ _) as [d|e]; [|reflexivity].
    by rewrite relay_exited.
Qed.

(** In [src/main.go] a target whose authority does not split into host and
    port is answered with a server error, and nothing is sent upstream. *)
Lemma MainGo_malformed_target (L : net.Lib) (O : Outbound) (s : H2SProxyServer)
    (w : http.ResponseWriter) (req : http.Request) (e : net.Error) :
  unsupported_scheme (http.Scheme (http.req_URL req)) = false →
  net.SplitHostPort L (http.Host (http.req_URL req)) = inr e →
  http.rw_status w = None →
  http.rw_status (wr (MainGo.proxyHandler L O s w req)) = Some http.StatusInternalServerError ∧
  outbound (MainGo.proxyHandler L O s w req) = [] ∧
  exited (MainGo.proxyHandler L O s w req) = None.
Proof.
  intros Hs He Hw. unfold MainGo.proxyHandler. rewrite Hs, He.
  cbn [wr outbound exited logged http_Error on_wr say start].
  split; [by apply http_Error_status | by split].
Qed.

(** A failure of the matcher on a malformed pattern is answered with a
    server error before anything is sent upstream; [ErrNotFoundRule] is not
    such a failure. *)
Lemma MainGo_rule_failure (L : net.Lib) (O : Outbound) (s : H2SProxyServer)
    (w : http.ResponseWriter) (req : http.Request) (host port : string) :
  unsupported_scheme (http.Scheme (http.req_URL req)) = false →
  net.SplitHostPort L (http.Host (http.req_URL req)) = inl (host, port) →
  is_hard_failure (MatchRule L (profile s) host).2 = true →
  http.rw_status w = None →
  http.rw_status (wr (MainGo.proxyHandler L O s w req)) = Some http.StatusInternalServerError ∧
  outbound (MainGo.proxyHandler L O s w req) = [].
Proof.
  intros Hs He Hm Hw. unfold MainGo.proxyHandler. rewrite Hs, He.
  destruct (MatchRule L (profile s) host) as [rule err]. simpl in Hm. rewrite Hm.
  cbn [wr outbound exited logged http_Error on_wr say start].
  split; [by apply http_Error_status | reflexivity].
Qed.

Lemma not_found_is_not_failure : is_hard_failure (Some ErrNotFoundRule) = false.
Proof. reflexivity. Qed.

(** In the other revision the same request ends the process at
    [log.Fatalf]: the writer is left as it was, with no status and no body
    written. *)
Lemma Part001_malformed_target (L : net.Lib) (O : Outbound) (s : H2SProxyServer)
    (w : http.ResponseWriter) (req : http.Request) (e : net.Error) :
  unsupported_scheme (http.Scheme (http.req_URL req)) = false →
  net.SplitHostPort L (http.Host (http.req_URL req)) = inr e →
  exited (Part001.proxyHandler L O s w req) = Some 1%Z ∧
  wr (Part001.proxyHandler L O s w req) = w ∧
  outbound (Part001.proxyHandler L O s w req) = [].
Proof.
  intros Hs He. unfold Part001.proxyHandler. rewrite Hs, He. by simpl.
Qed.

(** C5. A request for [http://example.com/] (an authority with no port)
    makes the handler of the revision that calls [log.Fatalf] end the
    process with exit code 1 and leaves the client without any response,
    while the handler of [src/main.go] answers the same request with status
    500 and returns. *)
Theorem malformed_target_ends_process :
  let s := {| profile := Scenario.mk [Scenario.internal] |} in
  let req := Scenario.request "http" "example.com" in
  let old := Part001.proxyHandler net4.lib Scenario.upstream s http.newResponseWriter req in
  let new := MainGo.proxyHandler net4.lib Scenario.upstream s http.newResponseWriter req in
  net4.SplitHostPort "example.com" =
    inr (net.AddrError "missing port in address" "example.com") ∧
  exited old = Some 1%Z ∧
  http.rw_status (wr old) = None ∧
  http.rw_body (wr old) = "" ∧
  exited new = None ∧
  http.rw_status (wr new) = Some http.StatusInternalServerError.
Proof. by vm_compute. Qed.

(** C9. For every request whose target scheme is neither [http] nor
    [https], both revisions of the handler answer on a fresh writer with
    status 400 and the message naming the scheme, issue no outbound request
    and return; the run is the same whatever the [net] library, the profile
    and the outbound side are, so no host is extracted and no rule is
    matched. *)
Theorem unsupported_scheme_rejected (L : net.Lib) (O : Outbound) (s : H2SProxyServer)
    (w : http.ResponseWriter) (req : http.Request) :
  http.Scheme (http.req_URL req) ≠ "http" →
  http.Scheme (http.req_URL req) ≠ "https" →
  http.rw_status w = None →
  let msg := "unsupported protocal scheme " +:+ http.Scheme (http.req_URL req) in
  let new := MainGo.proxyHandler L O s w req in
  let old := Part001.proxyHandler L O s w req in
  (http.rw_status (wr new) = Some http.StatusBadRequest ∧
   http.rw_body (wr new) = http.rw_body w +:+ msg +:+ http.newline ∧
   outbound new = [] ∧ exited new = None) ∧
  (http.rw_status (wr old) = Some http.StatusBadRequest ∧
   http.rw_body (wr old) = http.rw_body w +:+ msg +:+ http.newline ∧
   outbound old = [] ∧ exited old = None) ∧
  (∀ L' O' s', MainGo.proxyHandler L' O' s' w req = new ∧
               Part001.proxyHandler L' O' s' w req = old).
Proof.
  intros H1 H2 Hw msg new old.
  assert (unsupported_scheme (http.Scheme (http.req_URL req)) = true) as Hs
    by (by apply unsupported_scheme_spec).
  subst new old. unfold MainGo.proxyHandler, Part001.proxyHandler.
  rewrite Hs. cbn [wr outbound exited logged http_Error on_wr say start].
  split; [|split].
  - split; [by apply http_Error_status|]. split; [apply http_Error_body | by split].
  - split; [by apply http_Error_status|]. split; [apply http_Error_body | by split].
  - intros L' O' s'. by split.
Qed.

Lemma unsupported_scheme_rejected_witness :
  http.rw_status
    (wr (MainGo.proxyHandler net4.lib Scenario.upstream
           {| profile := Scenario.mk [Scenario.everything] |}
           http.newResponseWriter (Scenario.request "ftp" "10.1.2.3:21")))
  = Some 400%Z.
Proof.
  apply (unsupported_scheme_rejected net4.lib Scenario.upstream
           {| profile := Scenario.mk [Scenario.everything] |}
           http.newResponseWriter (Scenario.request "ftp" "10.1.2.3:21")).
  - simpl. discriminate.
  - simpl. discriminate.
  - reflexivity.
Defined.

(** The scenarios of the specification, run end to end. *)
Example scenario_internal :
  let run := MainGo.proxyHandler net4.lib Scenario.upstream
               {| profile := Scenario.mk [Scenario.internal] |}
               http.newResponseWriter (Scenario.request "http" "10.1.2.3:80") in
  fst <$> outbound run = [DialClient (Socks5Dialer "tcp" "127.0.0.1:1080")] ∧
  http.rw_status (wr run) = Some 200%Z ∧ http.rw_body (wr run) = "ok".
Proof. by vm_compute. Qed.

Example scenario_direct :
  let run := MainGo.proxyHandler net4.lib Scenario.upstream
               {| profile := Scenario.mk [Scenario.internal] |}
               http.newResponseWriter (Scenario.request "http" "8.8.8.8:80") in
  fst <$> outbound run = [DefaultClient] ∧ http.rw_status (wr run) = Some 200%Z.
Proof. by vm_compute. Qed.

Example scenario_not_a_cidr :
  let run := MainGo.proxyHandler net4.lib Scenario.upstream
               {| profile := Scenario.mk [Scenario.broken] |}
               http.newResponseWriter (Scenario.request "http" "8.8.8.8:80") in
  outbound run = [] ∧ http.rw_status (wr run) = Some 500%Z.
Proof. by vm_compute. Qed.

(** What is sent upstream carries the sanitised header: with no
    [X-Forwarded-For] on the way in, the header goes out with the empty
    value. *)
Example scenario_forwarded_header :
  let run := MainGo.proxyHandler net4.lib Scenario.upstream
               {| profile := Scenario.mk [Scenario.internal] |}
               http.newResponseWriter (Scenario.request "http" "8.8.8.8:80") in
  (fun cr => http.req_Header cr.2 !! "X-Forwarded-For") <$> outbound run = [Some [""]] ∧
  (fun cr => http.req_RequestURI cr.2) <$> outbound run = [""].
Proof. by vm_compute. Qed.

(** * Further properties of the code *)

(** ** [Profile.MatchRule]: outcomes, membership, composition *)

Section MatchRuleMore.

Variable L : net.Lib.

Lemma passes_nil (path : string) : passes L path [].
Proof. intros x Hx. by apply elem_of_nil in Hx. Qed.

Lemma passes_cons (path : string) (x : Rule * string) (pre : list (Rule * string)) :
  pattern_parses L x.2 = true → pattern_contains L path x.2 = false →
  passes L path pre → passes L path (x :: pre).
Proof.
  intros Hp Hc Hpre y Hy. apply elem_of_cons in Hy as [->|Hy]; [by split | by apply Hpre].
Qed.

(** The pass over a declared sequence ends in exactly one of three ways. *)
Lemma scan_cases (path : string) (l : list (Rule * string)) :
  (∃ pre r ptn post, l = pre ++ (r, ptn) :: post ∧ passes L path pre ∧
     pattern_contains L path ptn = true ∧ scan L path l = (r, None)) ∨
  (∃ pre r bad post e, l = pre ++ (r, bad) :: post ∧ passes L path pre ∧
     net.ParseCIDR L bad = inr e ∧ scan L path l = (zeroRule, Some (LibError e))) ∨
  (passes L path l ∧ scan L path l = (zeroRule, Some ErrNotFoundRule)).
Proof.
  induction l as [|[r ptn] l IH].
  - right. right. split; [apply passes_nil | reflexivity].
  - destruct (net.ParseCIDR L ptn) as [ipNet|e] eqn:Hparse.
    + destruct (pattern_contains L path ptn) eqn:Hc.
      * left. exists [], r, ptn, l. split; [reflexivity|].
        split; [apply passes_nil|]. split; [exact Hc | by apply scan_hit].
      * assert (scan L path ((r, ptn) :: l) = scan L path l) as Hstep.
        { simpl. rewrite Hparse. unfold pattern_contains in Hc.
          rewrite Hparse in Hc. by rewrite Hc. }
        assert (pattern_parses L ptn = true) as Hp
          by (unfold pattern_parses; by rewrite Hparse).
        rewrite Hstep.
        destruct IH as [(pre & r' & p' & post & -> & Hpre & Hhit & Hs)
                       |[(pre & r' & bad & post & e & -> & Hpre & Hbad & Hs)
                        |(Hall & Hs)]].
        -- left. exists ((r, ptn) :: pre), r', p', post.
           split; [reflexivity|]. split; [by apply passes_cons | by split].
        -- right. left. exists ((r, ptn) :: pre), r', bad, post, e.
           split; [reflexivity|]. split; [by apply passes_cons | by split].
        -- right. right. split; [by apply passes_cons | exact Hs].
    + right. left. exists [], r, ptn, l, e. split; [reflexivity|].
      split; [apply passes_nil|]. split; [exact Hparse | by apply scan_bad].
Qed.

Lemma elem_of_declared (r : Rule) (ptn : string) (rules : list Rule) :
  (r, ptn) ∈ declared rules ↔ r ∈ rules ∧ ptn ∈ Patterns r.
Proof.
  unfold declared. rewrite list_elem_of_In, in_flat_map. split.
  - intros (r' & Hr' & Hin). apply in_map_iff in Hin as (q & [= <- <-] & Hq).
    split; by apply list_elem_of_In.
  - intros [Hr Hp]. exists r. split; [by apply list_elem_of_In|].
    apply in_map_iff. exists ptn. split; [reflexivity | by apply list_elem_of_In].
Qed.

Lemma declared_app (rs1 rs2 : list Rule) :
  declared (rs1 ++ rs2) = declared rs1 ++ declared rs2.
Proof. unfold declared. apply flat_map_app. Qed.

(** A pass over two sequences in a row: the second is looked at only when
    the first ends with the sentinel. *)
Lemma scan_app (path : string) (l1 l2 : list (Rule * string)) :
  scan L path (l1 ++ l2) =
  match scan L path l1 with
  | (_, Some ErrNotFoundRule) => scan L path l2
  | found_or_failed => found_or_failed
  end.
Proof.
  induction l1 as [|[r ptn] l1 IH]; simpl; [reflexivity|].
  destruct (net.ParseCIDR L ptn) as [ipNet|e]; [|reflexivity].
  destruct (net.Contains ipNet _); [reflexivity | exact IH].
Qed.

Lemma declared_no_patterns (rules : list Rule) :
  declared (filter (fun r => Patterns r ≠ []) rules) = declared rules.
Proof.
  induction rules as [|r rules IH]; [reflexivity|].
  rewrite filter_cons. case_decide as Hr; simpl.
  - by rewrite IH.
  - by rewrite Hr, IH.
Qed.

End MatchRuleMore.

(** X1. For every profile and host, [MatchRule] ends in exactly one of
    three ways, decided by the first pattern in declared order that either
    contains the host or does not parse: the rule of that pattern with a nil
    error; the zero rule with the parser's error for that pattern; or, when
    every pattern parses and none contains the host, the zero rule with
    [ErrNotFoundRule]. *)
Theorem MatchRule_outcomes (L : net.Lib) (p : Profile) (path : string) :
  (∃ pre r ptn post, declared (Rules p) = pre ++ (r, ptn) :: post ∧
     passes L path pre ∧ pattern_contains L path ptn = true ∧
     MatchRule L p path = (r, None)) ∨
  (∃ pre r bad post e, declared (Rules p) = pre ++ (r, bad) :: post ∧
     passes L path pre ∧ net.ParseCIDR L bad = inr e ∧
     MatchRule L p path = (zeroRule, Some (LibError e))) ∨
  (passes L path (declared (Rules p)) ∧
   MatchRule L p path = (zeroRule, Some ErrNotFoundRule)).
Proof. unfold MatchRule. rewrite match_rules_scan. apply scan_cases. Qed.

(** X2. Whatever the profile and the host: when [MatchRule] returns a nil
    error, the rule it returns is one of the profile's rules and one of that
    rule's patterns contains the host; when it returns any error, the rule
    is the zero value [Rule{}]. *)
Theorem MatchRule_returns_declared_rule (L : net.Lib) (p : Profile) (path : string) :
  match MatchRule L p path with
  | (rule, None) =>
      rule ∈ Rules p ∧ ∃ ptn, ptn ∈ Patterns rule ∧ pattern_contains L path ptn = true
  | (rule, Some _) => rule = zeroRule
  end.
Proof.
  unfold MatchRule. rewrite match_rules_scan.
  destruct (scan_cases L path (declared (Rules p)))
    as [(pre & r & ptn & post & Hl & _ & Hhit & ->)
       |[(pre & r & bad & post & e & _ & _ & _ & ->)|(_ & ->)]];
    [|reflexivity..].
  assert ((r, ptn) ∈ declared (Rules p)) as Hin
    by (rewrite Hl; apply elem_of_app; right; left).
  apply elem_of_declared in Hin as [Hr Hp]. split; [exact Hr|]. by exists ptn.
Qed.

(** X3. Matching against two rule lists in a row: the rules of the second
    list are looked at only when the first list ends with
    [ErrNotFoundRule]; a match or a parse failure in the first list is the
    result, whatever the second list holds. *)
Theorem MatchRule_app (L : net.Lib) (host port path : string) (rs1 rs2 : list Rule) :
  MatchRule L {| ServerHost := host; ServerPort := port; Rules := rs1 ++ rs2 |} path =
  match MatchRule L {| ServerHost := host; ServerPort := port; Rules := rs1 |} path with
  | (_, Some ErrNotFoundRule) =>
      MatchRule L {| ServerHost := host; ServerPort := port; Rules := rs2 |} path
  | found_or_failed => found_or_failed
  end.
Proof.
  unfold MatchRule. simpl. rewrite !match_rules_scan, declared_app. apply scan_app.
Qed.

(** X4. Rules with an empty pattern list never match and never fail:
    dropping them from the profile does not change the result; in
    particular a profile with no rules, or whose rules all have no
    patterns, yields [ErrNotFoundRule] for every host. *)
Theorem MatchRule_ignores_empty_rules (L : net.Lib) (host port path : string)
    (rules : list Rule) :
  MatchRule L {| ServerHost := host; ServerPort := port;
                 Rules := filter (fun r => Patterns r ≠ []) rules |} path =
  MatchRule L {| ServerHost := host; ServerPort := port; Rules := rules |} path ∧
  (Forall (fun r => Patterns r = []) rules →
   MatchRule L {| ServerHost := host; ServerPort := port; Rules := rules |} path =
   (zeroRule, Some ErrNotFoundRule)).
Proof.
  unfold MatchRule. simpl. rewrite !match_rules_scan. split.
  - by rewrite declared_no_patterns.
  - intros Hall. replace (declared rules) with (@nil (Rule * string)); [reflexivity|].
    induction Hall as [|r rules Hr _ IH]; [reflexivity|].
    unfold declared in *. simpl. by rewrite Hr, <- IH.
Qed.

Lemma MatchRule_ignores_empty_rules_witness :
  MatchRule net4.lib (Scenario.mk [zeroRule; zeroRule]) "10.1.2.3" =
  (zeroRule, Some ErrNotFoundRule).
Proof.
  apply (MatchRule_ignores_empty_rules net4.lib "127.0.0.1" "8080" "10.1.2.3"
           [zeroRule; zeroRule]).
  repeat constructor.
Defined.

(** ** The header functions: idempotence, chaining, composition *)

Lemma xff_not_hop :
  "X-Forwarded-For" ∉ CanonicalMIMEHeaderKey <$> hopByHopHeaders.
Proof.
  intros Hin. apply hop_key_iff in Hin as [Hn _]. vm_compute in Hn. discriminate Hn.
Qed.

(** X5. [removeHopByHopHeader] only deletes: the result is a sub-map of the
    input; applying it twice is the same as applying it once; and a
    collection that holds none of the five canonical keys is returned
    unchanged. *)
Theorem removeHopByHopHeader_idempotent (header : Header) :
  removeHopByHopHeader header ⊆ header ∧
  removeHopByHopHeader (removeHopByHopHeader header) = removeHopByHopHeader header ∧
  ((∀ k, k ∈ CanonicalMIMEHeaderKey <$> hopByHopHeaders → header !! k = None) →
   removeHopByHopHeader header = header).
Proof.
  split; [|split].
  - apply map_subseteq_spec. intros k vv. rewrite removeHopByHopHeader_lookup.
    by case_bool_decide.
  - apply map_eq. intros k. rewrite !removeHopByHopHeader_lookup.
    by case_bool_decide.
  - intros Hno. apply map_eq. intros k. rewrite removeHopByHopHeader_lookup.
    case_bool_decide as Hk; [by rewrite Hno | reflexivity].
Qed.

Lemma removeHopByHopHeader_idempotent_witness :
  removeHopByHopHeader {[ "Accept" := ["*/*"]; "keep-alive" := ["x"] ]} =
  ({[ "Accept" := ["*/*"]; "keep-alive" := ["x"] ]} : Header).
Proof.
  apply (removeHopByHopHeader_idempotent {[ "Accept" := ["*/*"]; "keep-alive" := ["x"] ]}).
  intros k Hk. unfold hopByHopHeaders in Hk.
  rewrite !fmap_cons, fmap_nil, !elem_of_cons, elem_of_nil in Hk.
  destruct Hk as [->|[->|[->|[->|[->|[]]]]]]; reflexivity.
Defined.

Lemma strings_Join_cons (v : string) (rest : list string) (sep : string) :
  rest ≠ [] → strings_Join (v :: rest) sep = v +:+ sep +:+ strings_Join rest sep.
Proof. by destruct rest. Qed.

Lemma strings_Join_flatten (l rest : list string) (sep : string) :
  l ≠ [] → strings_Join (strings_Join l sep :: rest) sep = strings_Join (l ++ rest) sep.
Proof.
  intros Hl. destruct rest as [|x rest]; [by rewrite app_nil_r|].
  rewrite strings_Join_cons by done.
  induction l as [|e [|e' l] IH]; [done | reflexivity |].
  change ((e :: e' :: l) ++ x :: rest) with (e :: ((e' :: l) ++ x :: rest)).
  rewrite (strings_Join_cons e ((e' :: l) ++ x :: rest)) by done.
  rewrite <- IH by done.
  rewrite (strings_Join_cons e (e' :: l)) by done.
  by rewrite !append_assoc.
Qed.

(** Once the header holds one value, every further proxy extends it. *)
Lemma forwarded_through_single (hosts : list string) :
  ∀ (header : Header) (v : string),
  header !! "X-Forwarded-For" = Some [v] →
  forwarded_through hosts header !! "X-Forwarded-For" = Some [strings_Join (v :: hosts) ", "].
Proof.
  unfold forwarded_through.
  induction hosts as [|host hosts IH]; intros header v Hv; [exact Hv|].
  simpl foldl. rewrite (IH _ (v +:+ ", " +:+ host)).
  - f_equal. f_equal. destruct hosts as [|h2 hosts]; [reflexivity|].
    rewrite (strings_Join_cons _ (h2 :: hosts)) by done.
    rewrite (strings_Join_cons v (host :: h2 :: hosts)) by done.
    rewrite (strings_Join_cons host (h2 :: hosts)) by done.
    by rewrite !append_assoc.
  - by rewrite (addHost2XForwardHeader_present _ _ _ Hv).
Qed.

(** X6. A request that passes through several proxies, each applying
    [addHost2XForwardHeader]: when it starts with a non-empty
    [X-Forwarded-For], it ends with the single value that joins the prior
    values and then the hosts in the order of the hops; when it starts without
    the header, the first hop's host is lost and the chain starts with an
    empty entry. *)
Theorem forwarded_through_chain (header : Header) (host : string) (hosts : list string) :
  (∀ prior, header !! "X-Forwarded-For" = Some prior → prior ≠ [] →
     forwarded_through (host :: hosts) header !! "X-Forwarded-For" =
     Some [strings_Join (prior ++ host :: hosts) ", "]) ∧
  (header !! "X-Forwarded-For" = None →
     forwarded_through (host :: hosts) header !! "X-Forwarded-For" =
     Some [strings_Join ("" :: hosts) ", "]).
Proof.
  split.
  - intros prior Hp Hne.
    change (forwarded_through (host :: hosts) header)
      with (forwarded_through hosts (addHost2XForwardHeader header host)).
    rewrite (forwarded_through_single hosts _ (strings_Join (prior ++ [host]) ", ")).
    + rewrite strings_Join_flatten by (by destruct prior).
      by rewrite <- app_assoc.
    + rewrite (addHost2XForwardHeader_present _ _ _ Hp).
      by rewrite strings_Join_snoc.
  - intros Hno.
    change (forwarded_through (host :: hosts) header)
      with (forwarded_through hosts (addHost2XForwardHeader header host)).
    apply forwarded_through_single. by apply addHost2XForwardHeader_absent.
Qed.

Lemma forwarded_through_chain_witness :
  forwarded_through ["10.0.0.2"; "10.0.0.3"] {[ "X-Forwarded-For" := ["a"; "b"] ]}
    !! "X-Forwarded-For" = Some ["a, b, 10.0.0.2, 10.0.0.3"] ∧
  forwarded_through ["10.0.0.2"; "10.0.0.3"] ∅ !! "X-Forwarded-For" = Some [", 10.0.0.3"].
Proof.
  split.
  - destruct (forwarded_through_chain {[ "X-Forwarded-For" := ["a"; "b"] ]}
                "10.0.0.2" ["10.0.0.3"]) as [Hp _].
    apply (Hp ["a"; "b"]); [reflexivity | discriminate].
  - destruct (forwarded_through_chain ∅ "10.0.0.2" ["10.0.0.3"]) as [_ Hn].
    apply Hn. reflexivity.
Defined.

Lemma sanitise_lookup (header : Header) (host k : string) :
  sanitise header host !! k =
  if decide ("X-Forwarded-For" = k)
  then Some [match header !! "X-Forwarded-For" with
             | Some prior => strings_Join prior ", " +:+ ", " +:+ host
             | None => ""
             end]
  else if bool_decide (k ∈ CanonicalMIMEHeaderKey <$> hopByHopHeaders) then None
  else header !! k.
Proof.
  unfold sanitise. rewrite addHost2XForwardHeader_lookup, !removeHopByHopHeader_lookup.
  by rewrite (bool_decide_eq_false_2 _ xff_not_hop).
Qed.

(** X7. The two sanitising steps of the handler do not interfere: stripping
    the hop-by-hop headers and then recording the host gives the same
    collection as the other order. On a collection with canonical keys the
    result holds the forwarding chain under [X-Forwarded-For], nothing under
    any spelling of the five hop-by-hop names, and every other header as it
    was. *)
Theorem sanitise_steps_commute (header : Header) (host : string) :
  sanitise header host = removeHopByHopHeader (addHost2XForwardHeader header host) ∧
  (Hdr.canonical header →
   ∀ k, sanitise header host !! k =
        if decide (k = "X-Forwarded-For")
        then Some [match header !! "X-Forwarded-For" with
                   | Some prior => strings_Join prior ", " +:+ ", " +:+ host
                   | None => ""
                   end]
        else if is_hop_name k then None else header !! k).
Proof.
  split.
  - apply map_eq. intros k.
    rewrite sanitise_lookup, removeHopByHopHeader_lookup, addHost2XForwardHeader_lookup.
    destruct (decide ("X-Forwarded-For" = k)) as [<-|Hk]; [|reflexivity].
    by rewrite (bool_decide_eq_false_2 _ xff_not_hop).
  - intros Hc k. rewrite sanitise_lookup.
    destruct (decide (k = "X-Forwarded-For")) as [->|Hk].
    + by rewrite decide_True.
    + rewrite decide_False by done.
      rewrite <- removeHopByHopHeader_lookup.
      destruct (is_hop_name k) eqn:Hn.
      * by apply removeHopByHopHeader_no_hop_key.
      * by rewrite removeHopByHopHeader_key, Hn.
Qed.

Lemma sanitise_steps_commute_witness :
  sanitise {[ "Upgrade" := ["h2c"]; "Accept" := ["*/*"] ]} "10.1.2.3" !! "Upgrade" = None.
Proof.
  destruct (sanitise_steps_commute {[ "Upgrade" := ["h2c"]; "Accept" := ["*/*"] ]} "10.1.2.3")
    as [_ Hk].
  apply (Hk ltac:(repeat apply canonical_insert; (reflexivity || apply canonical_empty))
            "Upgrade").
Defined.

(** ** The header functions: canonical keys and the order of a copy *)

Lemma add_values_canonical (vv : list string) : ∀ (d : Header) (k : string),
  Hdr.canonical d → Hdr.canonical (foldl (fun d' v => Hdr.Add d' k v) d vv).
Proof.
  induction vv as [|v vv IH]; intros d k Hd; simpl; [exact Hd|].
  by apply IH, Hdr_Add_canonical.
Qed.

Lemma copyHeader_from_canonical (entries : list (string * list string)) :
  ∀ dst : Header, Hdr.canonical dst → Hdr.canonical (copyHeader_from entries dst).
Proof.
  unfold copyHeader_from.
  induction entries as [|[k vv] entries IH]; intros dst Hd; simpl; [exact Hd|].
  by apply IH, add_values_canonical.
Qed.

(** X8. The three header functions keep the convention of [http.Header]:
    when the keys of the collection they change are in canonical form, so
    are the keys of the result. For [copyHeader] this holds whatever the
    keys of the source are and in whatever order they are visited. *)
Theorem header_functions_keep_canonical (header : Header) (host : string) :
  Hdr.canonical header →
  Hdr.canonical (removeHopByHopHeader header) ∧
  Hdr.canonical (addHost2XForwardHeader header host) ∧
  (∀ src, Hdr.canonical (copyHeader header src)) ∧
  (∀ entries, Hdr.canonical (copyHeader_from entries header)).
Proof.
  intros Hc. split; [by apply removeHopByHopHeader_canonical|].
  split; [by apply addHost2XForwardHeader_canonical|].
  split; [intros src | intros entries]; by apply copyHeader_from_canonical.
Qed.

Lemma header_functions_keep_canonical_witness :
  Hdr.canonical (removeHopByHopHeader {[ "Accept" := ["*/*"] ]}) ∧
  Hdr.canonical (copyHeader {[ "Accept" := ["*/*"] ]} {[ "vary" := ["Origin"] ]}).
Proof.
  destruct (header_functions_keep_canonical {[ "Accept" := ["*/*"] ]} "10.1.2.3")
    as (H1 & _ & H3 & _).
  - apply canonical_insert; [reflexivity | apply canonical_empty].
  - split; [exact H1 | exact (H3 {[ "vary" := ["Origin"] ]})].
Defined.

(** What a key holds after the inner loop, at the level of the map: a key
    is created or extended only when at least one value is added. *)
Lemma add_values_lookup (vv : list string) : ∀ (d : Header) (k j : string),
  foldl (fun d' v => Hdr.Add d' k v) d vv !! j =
  match (if decide (CanonicalMIMEHeaderKey k = j) then vv else []) with
  | [] => d !! j
  | a => Some (Hdr.index d j ++ a)
  end.
Proof.
  induction vv as [|v vv IH]; intros d k j; simpl.
  - by case_decide.
  - rewrite IH, Hdr_Add_lookup, Hdr_Add_index.
    case_decide; [|reflexivity].
    destruct vv; simpl; by rewrite <- ?app_assoc.
Qed.

Lemma copyHeader_from_lookup (entries : list (string * list string)) :
  ∀ (dst : Header) (j : string),
  copyHeader_from entries dst !! j =
  match added entries j with
  | [] => dst !! j
  | a => Some (Hdr.index dst j ++ a)
  end.
Proof.
  induction entries as [|[k vv] entries IH]; intros dst j; [reflexivity|].
  change (copyHeader_from ((k, vv) :: entries) dst)
    with (copyHeader_from entries (foldl (fun d' v => Hdr.Add d' k v) dst vv)).
  rewrite IH, add_values_lookup, add_values_index.
  change (added ((k, vv) :: entries) j)
    with ((if decide (CanonicalMIMEHeaderKey k = j) then vv else []) ++ added entries j).
  destruct (if decide (CanonicalMIMEHeaderKey k = j) then vv else []) as [|v vs];
    simpl.
  - by rewrite app_nil_r.
  - destruct (added entries j); simpl; [by rewrite app_nil_r|].
    by rewrite <- app_assoc.
Qed.

(** X9. Go visits the entries of the source in an unspecified order. When
    the keys of the source are canonical the result of [copyHeader] does not
    depend on that order: every visiting order gives the same collection. *)
Theorem copyHeader_order_independent (dst src : Header)
    (entries : list (string * list string)) :
  Hdr.canonical src →
  entries ≡ₚ map_to_list src →
  copyHeader_from entries dst = copyHeader dst src.
Proof.
  intros Hc Hperm. unfold copyHeader. apply map_eq. intros j.
  rewrite !copyHeader_from_lookup.
  by rewrite (added_canonical src entries j Hperm Hc),
             (added_canonical src (map_to_list src) j).
Qed.

Lemma copyHeader_order_independent_witness :
  copyHeader_from [("Vary", ["Accept"]); ("Set-Cookie", ["a=1"; "b=2"])]
                  {[ "Set-Cookie" := ["z=0"] ]} =
  copyHeader {[ "Set-Cookie" := ["z=0"] ]}
             {[ "Set-Cookie" := ["a=1"; "b=2"]; "Vary" := ["Accept"] ]}.
Proof.
  apply (copyHeader_order_independent {[ "Set-Cookie" := ["z=0"] ]}
           {[ "Set-Cookie" := ["a=1"; "b=2"]; "Vary" := ["Accept"] ]}
           [("Vary", ["Accept"]); ("Set-Cookie", ["a=1"; "b=2"])]).
  - repeat apply canonical_insert; (reflexivity || apply canonical_empty).
  - vm_compute. apply perm_swap.
Defined.

(** With two spellings of one name in the source the order does matter. *)
Example copyHeader_order_matters :
  copyHeader_from [("vary", ["a"]); ("Vary", ["b"])] ∅ = {[ "Vary" := ["a"; "b"] ]} ∧
  copyHeader_from [("Vary", ["b"]); ("vary", ["a"])] ∅ = {[ "Vary" := ["b"; "a"] ]}.
Proof. by vm_compute. Qed.

(** X10. What [copyHeader] leaves under each key when the keys of the
    source are canonical: a header of the source with at least one value is
    appended to the values of the destination; a header that the source
    lacks, or holds with an empty value list, leaves the destination's entry
    as it was and creates no key. Copying from the empty collection changes
    nothing. *)
Theorem copyHeader_lookup (dst src : Header) :
  (Hdr.canonical src →
   ∀ k, copyHeader dst src !! k =
        match src !! k with
        | Some (v :: vs) => Some (Hdr.index dst k ++ v :: vs)
        | _ => dst !! k
        end) ∧
  copyHeader dst ∅ = dst.
Proof.
  split.
  - intros Hc k. unfold copyHeader. rewrite copyHeader_from_lookup.
    rewrite (added_canonical src (map_to_list src) k) by done.
    unfold Hdr.index at 1. by destruct (src !! k) as [[|v vs]|].
  - unfold copyHeader. by rewrite map_to_list_empty.
Qed.

Lemma copyHeader_lookup_witness :
  copyHeader {[ "Vary" := ["Accept"] ]} {[ "Age" := [] ; "Vary" := ["Origin"] ]} !! "Age" = None ∧
  copyHeader {[ "Vary" := ["Accept"] ]} {[ "Age" := [] ; "Vary" := ["Origin"] ]} !! "Vary"
    = Some ["Accept"; "Origin"].
Proof.
  destruct (copyHeader_lookup {[ "Vary" := ["Accept"] ]}
              {[ "Age" := [] ; "Vary" := ["Origin"] ]}) as [Hk _].
  assert (Hdr.canonical ({[ "Age" := [] ; "Vary" := ["Origin"] ]} : Header)) as Hc
    by (repeat apply canonical_insert; (reflexivity || apply canonical_empty)).
  split; [exact (Hk Hc "Age") | exact (Hk Hc "Vary")].
Defined.

(** ** The request handler: what is sent upstream and what is answered *)

Lemma same_effects_refl (r : Run) : same_effects r r.
Proof. by repeat split. Qed.

Lemma same_effects_trans (r1 r2 r3 : Run) :
  same_effects r1 r2 → same_effects r2 r3 → same_effects r1 r3.
Proof. intros (? & ? & ?) (? & ? & ?). repeat split; congruence. Qed.

Lemma say_logs_only (l : Level) : logs_only (say l).
Proof. intros m r. by repeat split. Qed.

Lemma silent_logs_only : logs_only (fun (_ : string) (r : Run) => r).
Proof. intros m r. apply same_effects_refl. Qed.

(** The request handed to the client, as the handler builds it step by
    step, is [outbound_request]. *)
Lemma sent_request (req : http.Request) (host : string) :
  (if negb (String.eqb
              (http.req_RequestURI
                 (http.with_req_Header
                    (http.with_req_Header req (removeHopByHopHeader (http.req_Header req)))
                    (addHost2XForwardHeader
                       (http.req_Header
                          (http.with_req_Header req
                             (removeHopByHopHeader (http.req_Header req))))
                       host)))
              "")
   then http.with_RequestURI
          (http.with_req_Header
             (http.with_req_Header req (removeHopByHopHeader (http.req_Header req)))
             (addHost2XForwardHeader
                (http.req_Header
                   (http.with_req_Header req (removeHopByHopHeader (http.req_Header req))))
                host))
          ""
   else http.with_req_Header
          (http.with_req_Header req (removeHopByHopHeader (http.req_Header req)))
          (addHost2XForwardHeader
             (http.req_Header
                (http.with_req_Header req (removeHopByHopHeader (http.req_Header req))))
             host))
  = outbound_request req host.
Proof.
  unfold outbound_request, sanitise, http.with_RequestURI, http.with_req_Header. simpl.
  destruct (String.eqb_spec (http.req_RequestURI req) "") as [E|E]; simpl;
    [by rewrite E | reflexivity].
Qed.

(** The run of [src/main.go]'s handler once the scheme is accepted and the
    authority splits. *)
Lemma MainGo_accepted (L : net.Lib) (O : Outbound) (s : H2SProxyServer)
    (w : http.ResponseWriter) (req : http.Request) (host port : string) :
  unsupported_scheme (http.Scheme (http.req_URL req)) = false →
  net.SplitHostPort L (http.Host (http.req_URL req)) = inl (host, port) →
  MainGo.proxyHandler L O s w req =
  let r := say Debug "remoteAddr: %v, Method: %v, URL: %v" (start w) in
  if is_hard_failure (MatchRule L (profile s) host).2 then
    http_Error "unexpected error" http.StatusInternalServerError
      (say Error_ "failed to match rule: %v" r)
  else
    match (MatchRule L (profile s) host).2 with
    | None =>
        match SOCKS5 O "tcp" (ProxyIP (MatchRule L (profile s) host).1 +:+ ":" +:+
                              Port (MatchRule L (profile s) host).1) with
        | inr _ => http_Error "unexpected error" http.StatusInternalServerError
                     (say Error_ "failed to create socksDailer: %v" r)
        | inl d => relay O (say Error_) (DialClient d) (outbound_request req host)
                     (say Info "proxy" r)
        end
    | Some _ => relay O (say Error_) DefaultClient (outbound_request req host)
                  (say Info "proxy" r)
    end.
Proof.
  intros Hs He. unfold MainGo.proxyHandler. rewrite Hs, He.
  destruct (MatchRule L (profile s) host) as [rule err]. cbv zeta.
  rewrite sent_request. reflexivity.
Qed.

Lemma Part001_accepted (L : net.Lib) (O : Outbound) (s : H2SProxyServer)
    (w : http.ResponseWriter) (req : http.Request) (host port : string) :
  unsupported_scheme (http.Scheme (http.req_URL req)) = false →
  net.SplitHostPort L (http.Host (http.req_URL req)) = inl (host, port) →
  Part001.proxyHandler L O s w req =
  let r := say Std "remoteAddr: %v, Method: %v, URL: %v" (start w) in
  if is_hard_failure (MatchRule L (profile s) host).2 then
    http_Error "unexpected error" http.StatusInternalServerError r
  else
    match (MatchRule L (profile s) host).2 with
    | None =>
        match SOCKS5 O "tcp" (ProxyIP (MatchRule L (profile s) host).1 +:+ ":" +:+
                              Port (MatchRule L (profile s) host).1) with
        | inr _ => http_Error "unexpected error" http.StatusInternalServerError
                     (say Stdout "Exec rule name: %v" r)
        | inl d => relay O (fun _ r => r) (DialClient d) (outbound_request req host)
                     (say Stdout "Exec rule name: %v" r)
        end
    | Some _ => relay O (fun _ r => r) DefaultClient (outbound_request req host) r
    end.
Proof.
  intros Hs He. unfold Part001.proxyHandler. rewrite Hs, He.
  destruct (MatchRule L (profile s) host) as [rule err]. cbv zeta.
  rewrite sent_request. reflexivity.
Qed.

Lemma relay_outbound (O : Outbound) (note : string → Run → Run)
    (client : Client) (req : http.Request) (r : Run) :
  logs_only note →
  outbound (relay O note client req r) = outbound r ++ [(client, req)].
Proof.
  intros Hnote. unfold relay.
  destruct (Do O client req) as [res|err]; simpl.
  - destruct (Copy O (http.res_Body res)) as [written [cerr|]]; simpl;
      [by rewrite (proj1 (proj2 (Hnote _ _))) | reflexivity].
  - by rewrite (proj1 (proj2 (Hnote _ _))).
Qed.

(** The writer after the tail of the handler, by what the upstream and the
    copy did. *)
Lemma relay_wr (O : Outbound) (note : string → Run → Run)
    (client : Client) (req : http.Request) (r : Run) :
  logs_only note →
  wr (relay O note client req r) =
  match Do O client req with
  | inr _ => http.Error (wr r) "unexpected error" http.StatusInternalServerError
  | inl res =>
      let relayed :=
        http.Write
          (http.WriteHeader
             (http.with_Header (wr r)
                (copyHeader (http.rw_Header (wr r))
                   (removeHopByHopHeader (http.res_Header res))))
             (http.res_StatusCode res))
          (Copy O (http.res_Body res)).1 in
      match (Copy O (http.res_Body res)).2 with
      | Some _ => http.Error relayed "unexpected error" http.StatusInternalServerError
      | None => relayed
      end
  end.
Proof.
  intros Hnote. unfold relay.
  destruct (Do O client req) as [res|err]; simpl.
  - destruct (Copy O (http.res_Body res)) as [written [cerr|]]; simpl; [|reflexivity].
    by rewrite (proj1 (Hnote _ _)).
  - by rewrite (proj1 (Hnote _ _)).
Qed.

Lemma relay_same_effects (O : Outbound) (note1 note2 : string → Run → Run)
    (client : Client) (req : http.Request) (r1 r2 : Run) :
  logs_only note1 → logs_only note2 → same_effects r1 r2 →
  same_effects (relay O note1 client req r1) (relay O note2 client req r2).
Proof.
  intros H1 H2 (Hw & Ho & He). split; [|split].
  - by rewrite !relay_wr, Hw.
  - by rewrite !relay_outbound, Ho.
  - rewrite !relay_exited; [exact He | intros m r'; apply H2 | intros m r'; apply H1].
Qed.



(** Every request issued by [src/main.go]'s handler comes from its tail,
    entered with the writer untouched. *)
Lemma MainGo_issued (L : net.Lib) (O : Outbound) (s : H2SProxyServer)
    (w : http.ResponseWriter) (req : http.Request) (c : Client) (out : http.Request) :
  (c, out) ∈ outbound (MainGo.proxyHandler L O s w req) →
  ∃ host port r,
    net.SplitHostPort L (http.Host (http.req_URL req)) = inl (host, port) ∧
    out = outbound_request req host ∧
    wr r = w ∧ outbound r = [] ∧
    MainGo.proxyHandler L O s w req = relay O (say Error_) c out r.
Proof.
  intros Hin.
  destruct (unsupported_scheme (http.Scheme (http.req_URL req))) eqn:Hs.
  { unfold MainGo.proxyHandler in Hin. rewrite Hs in Hin. simpl in Hin.
    by apply elem_of_nil in Hin. }
  destruct (net.SplitHostPort L (http.Host (http.req_URL req))) as [[host port]|e] eqn:He.
  2:{ unfold MainGo.proxyHandler in Hin. rewrite Hs, He in Hin. simpl in Hin.
      by apply elem_of_nil in Hin. }
  exists host, port. rewrite (MainGo_accepted L O s w req host port Hs He) in Hin |- *.
  cbv zeta in Hin |- *.
  destruct (is_hard_failure _).
  { simpl in Hin. by apply elem_of_nil in Hin. }
  destruct ((MatchRule L (profile s) host).2) as [e|].
  - rewrite relay_outbound in Hin by apply say_logs_only. simpl in Hin.
    apply list_elem_of_singleton in Hin as [= -> ->]. eexists. by repeat split.
  - destruct (SOCKS5 O _ _) as [d|e].
    + rewrite relay_outbound in Hin by apply say_logs_only. simpl in Hin.
      apply list_elem_of_singleton in Hin as [= -> ->]. eexists. by repeat split.
    + simpl in Hin. by apply elem_of_nil in Hin.
Qed.

(** X11. [src/main.go]'s handler issues at most one outbound request, and
    only for a target whose authority splits into host and port. The request
    issued is the request received with its [RequestURI] cleared and its
    header sanitised: on a received header with canonical keys it carries
    none of the five hop-by-hop names and exactly one [X-Forwarded-For]
    value. *)
Theorem proxyHandler_outbound_request (L : net.Lib) (O : Outbound) (s : H2SProxyServer)
    (w : http.ResponseWriter) (req : http.Request) (c : Client) (out : http.Request) :
  (c, out) ∈ outbound (MainGo.proxyHandler L O s w req) →
  outbound (MainGo.proxyHandler L O s w req) = [(c, out)] ∧
  ∃ host port,
    net.SplitHostPort L (http.Host (http.req_URL req)) = inl (host, port) ∧
    out = outbound_request req host ∧
    http.req_RequestURI out = "" ∧
    (∃ v, http.req_Header out !! "X-Forwarded-For" = Some [v]) ∧
    (Hdr.canonical (http.req_Header req) →
     ∀ k, is_hop_name k = true → http.req_Header out !! k = None).
Proof.
  intros Hin.
  destruct (MainGo_issued L O s w req c out Hin) as (host & port & r & He & -> & _ & Ho & ->).
  split.
  - rewrite relay_outbound by apply say_logs_only. by rewrite Ho.
  - exists host, port. split; [exact He|]. split; [reflexivity|]. split; [reflexivity|].
    split.
    + eexists. cbn [outbound_request http.req_Header].
      rewrite sanitise_lookup. by rewrite decide_True.
    + intros Hc k Hk. cbn [outbound_request http.req_Header].
      unfold sanitise. rewrite addHost2XForwardHeader_other.
      * by apply removeHopByHopHeader_no_hop_key.
      * intros ->. vm_compute in Hk. discriminate Hk.
Qed.

Lemma proxyHandler_outbound_request_witness :
  outbound (MainGo.proxyHandler net4.lib Scenario.upstream
              (NewH2SProxyServer (Scenario.mk [Scenario.internal]))
              http.newResponseWriter (Scenario.request "http" "8.8.8.8:80")) =
  [(DefaultClient, outbound_request (Scenario.request "http" "8.8.8.8:80") "8.8.8.8")].
Proof.
  apply (proxyHandler_outbound_request net4.lib Scenario.upstream
           (NewH2SProxyServer (Scenario.mk [Scenario.internal]))
           http.newResponseWriter (Scenario.request "http" "8.8.8.8:80")).
  vm_compute. left.
Defined.

(** X12. Which client carries the request, for a target the handler
    accepts: a matched rule gives the client that dials through the SOCKS5
    proxy at the rule's [ProxyIP:Port] over tcp, and nothing is sent when that
    dialer cannot be built; [ErrNotFoundRule] gives the default client;
    any other matcher error sends nothing. *)
Theorem proxyHandler_transport (L : net.Lib) (O : Outbound) (s : H2SProxyServer)
    (w : http.ResponseWriter) (req : http.Request) (host port : string) :
  unsupported_scheme (http.Scheme (http.req_URL req)) = false →
  net.SplitHostPort L (http.Host (http.req_URL req)) = inl (host, port) →
  (outbound (MainGo.proxyHandler L O s w req)).*1 =
  match MatchRule L (profile s) host with
  | (rule, None) =>
      match SOCKS5 O "tcp" (ProxyIP rule +:+ ":" +:+ Port rule) with
      | inl d => [DialClient d]
      | inr _ => []
      end
  | (_, Some ErrNotFoundRule) => [DefaultClient]
  | (_, Some (LibError _)) => []
  end.
Proof.
  intros Hs He. rewrite (MainGo_accepted L O s w req host port Hs He). cbv zeta.
  destruct (MatchRule L (profile s) host) as [rule [[|e]|]]; simpl.
  - by rewrite relay_outbound by apply say_logs_only.
  - reflexivity.
  - destruct (SOCKS5 O _ _) as [d|e]; [|reflexivity].
    by rewrite relay_outbound by apply say_logs_only.
Qed.

Lemma proxyHandler_transport_witness :
  (outbound (MainGo.proxyHandler net4.lib Scenario.upstream
               (NewH2SProxyServer (Scenario.mk [Scenario.internal]))
               http.newResponseWriter (Scenario.request "http" "10.1.2.3:80"))).*1 =
  [DialClient (Socks5Dialer "tcp" "127.0.0.1:1080")].
Proof.
  apply (proxyHandler_transport net4.lib Scenario.upstream
           (NewH2SProxyServer (Scenario.mk [Scenario.internal]))
           http.newResponseWriter (Scenario.request "http" "10.1.2.3:80")
           "10.1.2.3" "80"); reflexivity.
Defined.

(** X13. When the outbound request fails, the client is answered with
    status 500 and the request is not issued again, neither through the same
    client nor directly: the failed request is the only one of the run. *)
Theorem proxyHandler_upstream_failure (L : net.Lib) (O : Outbound) (s : H2SProxyServer)
    (w : http.ResponseWriter) (req : http.Request) (c : Client) (out : http.Request)
    (e : net.Error) :
  (c, out) ∈ outbound (MainGo.proxyHandler L O s w req) →
  Do O c out = inr e →
  http.rw_status w = None →
  http.rw_status (wr (MainGo.proxyHandler L O s w req)) = Some http.StatusInternalServerError ∧
  outbound (MainGo.proxyHandler L O s w req) = [(c, out)] ∧
  exited (MainGo.proxyHandler L O s w req) = None.
Proof.
  intros Hin Hdo Hw.
  destruct (MainGo_issued L O s w req c out Hin) as (host & port & r & _ & _ & Hr & Ho & Heq).
  split; [|split].
  - rewrite Heq, relay_wr, Hdo by apply say_logs_only.
    apply http_Error_status. by rewrite Hr.
  - rewrite Heq, relay_outbound by apply say_logs_only. by rewrite Ho.
  - apply MainGo_never_exits.
Qed.

Lemma proxyHandler_upstream_failure_witness :
  http.rw_status
    (wr (MainGo.proxyHandler net4.lib Upstreams.unreachable
           (NewH2SProxyServer (Scenario.mk [Scenario.internal]))
           http.newResponseWriter (Scenario.request "http" "10.1.2.3:80")))
  = Some 500%Z.
Proof.
  apply (proxyHandler_upstream_failure net4.lib Upstreams.unreachable
           (NewH2SProxyServer (Scenario.mk [Scenario.internal]))
           http.newResponseWriter (Scenario.request "http" "10.1.2.3:80")
           (DialClient (Socks5Dialer "tcp" "127.0.0.1:1080"))
           (outbound_request (Scenario.request "http" "10.1.2.3:80") "10.1.2.3")
           (net.OpError "connection refused")).
  - vm_compute. left.
  - reflexivity.
  - reflexivity.
Defined.





(** X16. The two revisions of the handler issue the same outbound requests
    for every request, and whenever the older one returns (it does so unless
    the target's authority fails to split) they leave the response writer in
    the same state: they differ in what they log and in that one case only. *)
Theorem revisions_agree (L : net.Lib) (O : Outbound) (s : H2SProxyServer)
    (w : http.ResponseWriter) (req : http.Request) :
  outbound (Part001.proxyHandler L O s w req) = outbound (MainGo.proxyHandler L O s w req) ∧
  (exited (Part001.proxyHandler L O s w req) = None →
   same_effects (Part001.proxyHandler L O s w req) (MainGo.proxyHandler L O s w req)).
Proof.
  destruct (unsupported_scheme (http.Scheme (http.req_URL req))) eqn:Hs.
  { unfold Part001.proxyHandler, MainGo.proxyHandler. rewrite Hs.
    split; [reflexivity | intros _; by repeat split]. }
  destruct (net.SplitHostPort L (http.Host (http.req_URL req))) as [[host port]|e] eqn:He.
  2:{ unfold Part001.proxyHandler, MainGo.proxyHandler. rewrite Hs, He.
      split; [reflexivity | discriminate]. }
  assert (same_effects (Part001.proxyHandler L O s w req) (MainGo.proxyHandler L O s w req))
    as Hsame.
  { rewrite (Part001_accepted L O s w req host port Hs He),
            (MainGo_accepted L O s w req host port Hs He). cbv zeta.
    destruct (is_hard_failure _); [by repeat split|].
    destruct ((MatchRule L (profile s) host).2) as [e|].
    - apply relay_same_effects;
        [apply silent_logs_only | apply say_logs_only | by repeat split].
    - destruct (SOCKS5 O _ _) as [d|e]; [|by repeat split].
      apply relay_same_effects;
        [apply silent_logs_only | apply say_logs_only | by repeat split]. }
  split; [apply Hsame | intros _; exact Hsame].
Qed.

Lemma revisions_agree_witness :
  wr (Part001.proxyHandler net4.lib Upstreams.chatty
        (NewH2SProxyServer (Scenario.mk [Scenario.internal]))
        http.newResponseWriter (Scenario.request "http" "10.1.2.3:80")) =
  wr (MainGo.proxyHandler net4.lib Upstreams.chatty
        (NewH2SProxyServer (Scenario.mk [Scenario.internal]))
        http.newResponseWriter (Scenario.request "http" "10.1.2.3:80")).
Proof.
  apply (revisions_agree net4.lib Upstreams.chatty
           (NewH2SProxyServer (Scenario.mk [Scenario.internal]))
           http.newResponseWriter (Scenario.request "http" "10.1.2.3:80")).
  reflexivity.
Defined.

(** X17. When a run ends the process: the handler of [src/main.go] never
    does; the handler of the older revision does so, with exit code 1,
    exactly when the scheme is accepted and the target's authority fails to
    split into host and port. *)
Theorem proxyHandler_exits (L : net.Lib) (O : Outbound) (s : H2SProxyServer)
    (w : http.ResponseWriter) (req : http.Request) :
  exited (MainGo.proxyHandler L O s w req) = None ∧
  exited (Part001.proxyHandler L O s w req) =
    if unsupported_scheme (http.Scheme (http.req_URL req)) then None
    else match net.SplitHostPort L (http.Host (http.req_URL req)) with
         | inr _ => Some 1%Z
         | inl _ => None
         end.
Proof.
  split; [apply MainGo_never_exits|].
  destruct (unsupported_scheme (http.Scheme (http.req_URL req))) eqn:Hs.
  { unfold Part001.proxyHandler. by rewrite Hs. }
  destruct (net.SplitHostPort L (http.Host (http.req_URL req))) as [[host port]|e] eqn:He.
  2:{ unfold Part001.proxyHandler. by rewrite Hs, He. }
  rewrite (Part001_accepted L O s w req host port Hs He). cbv zeta.
  destruct (is_hard_failure _); [reflexivity|].
  destruct ((MatchRule L (profile s) host).2) as [e|].
  - by rewrite relay_exited.
  - destruct (SOCKS5 O _ _) as [d|e]; [|reflexivity]. by rewrite relay_exited.
Qed.

(** X18. A run of [src/main.go]'s handler that issues no outbound request
    has refused the request: on a fresh writer the status is 400 when the
    scheme is unsupported and 500 otherwise (the authority does not split, a
    pattern of the profile does not parse, or the SOCKS5 dialer cannot be
    built). *)
Theorem proxyHandler_refusals (L : net.Lib) (O : Outbound) (s : H2SProxyServer)
    (w : http.ResponseWriter) (req : http.Request) :
  outbound (MainGo.proxyHandler L O s w req) = [] →
  http.rw_status w = None →
  http.rw_status (wr (MainGo.proxyHandler L O s w req)) =
    Some (if unsupported_scheme (http.Scheme (http.req_URL req))
          then http.StatusBadRequest else http.StatusInternalServerError).
Proof.
  intros Hout Hw.
  destruct (unsupported_scheme (http.Scheme (http.req_URL req))) eqn:Hs.
  { unfold MainGo.proxyHandler. rewrite Hs.
    cbn [wr http_Error on_wr say start]. by apply http_Error_status. }
  destruct (net.SplitHostPort L (http.Host (http.req_URL req))) as [[host port]|e] eqn:He.
  2:{ unfold MainGo.proxyHandler. rewrite Hs, He.
      cbn [wr http_Error on_wr say start]. by apply http_Error_status. }
  rewrite (MainGo_accepted L O s w req host port Hs He) in Hout |- *. cbv zeta in Hout |- *.
  destruct (is_hard_failure _).
  { cbn [wr http_Error on_wr say start]. by apply http_Error_status. }
  destruct ((MatchRule L (profile s) host).2) as [e|].
  - rewrite relay_outbound in Hout by apply say_logs_only.
    by apply app_nil in Hout as [_ Hout].
  - destruct (SOCKS5 O _ _) as [d|e].
    + rewrite relay_outbound in Hout by apply say_logs_only.
      by apply app_nil in Hout as [_ Hout].
    + cbn [wr http_Error on_wr say start]. by apply http_Error_status.
Qed.

Lemma proxyHandler_refusals_witness :
  http.rw_status
    (wr (MainGo.proxyHandler net4.lib Upstreams.no_dialer
           (NewH2SProxyServer (Scenario.mk [Scenario.internal]))
           http.newResponseWriter (Scenario.request "http" "10.1.2.3:80")))
  = Some 500%Z.
Proof.
  apply (proxyHandler_refusals net4.lib Upstreams.no_dialer
           (NewH2SProxyServer (Scenario.mk [Scenario.internal]))
           http.newResponseWriter (Scenario.request "http" "10.1.2.3:80"));
    reflexivity.
Defined.



(** ** [loadProfile] *)

(** X20. A profile file that opens and reads but does not decode is not
    reported: [loadProfile] returns the profile as the decoder left it, with
    a nil error. When the decoder left it untouched, the server runs with
    the zero profile: its address is [":"], and [MatchRule] answers
    [ErrNotFoundRule] for every host, so every request is sent directly. *)
Theorem loadProfile_drops_decoder_error (F : Files) (path : string) (file : File F)
    (bytesFile : string) (p : Profile) (e : net.Error) :
  Open F path = inl file →
  ReadAll F file = inl bytesFile →
  Unmarshal F bytesFile zeroProfile = (p, Some e) →
  loadProfile F path = (Some p, None) ∧
  (p = zeroProfile →
   GetServerAddr p = ":" ∧
   ∀ L host, MatchRule L p host = (zeroRule, Some ErrNotFoundRule)).
Proof.
  intros Ho Hr Hu. unfold loadProfile. rewrite Ho, Hr, Hu.
  split; [reflexivity|]. intros ->. by split.
Qed.

Lemma loadProfile_drops_decoder_error_witness :
  loadProfile Disk.files "./profile.json" = (Some zeroProfile, None).
Proof.
  apply (loadProfile_drops_decoder_error Disk.files "./profile.json" "{ rules: "
           "{ rules: " zeroProfile (net.OpError "invalid character")); reflexivity.
Defined.

(** X21. [loadProfile] returns an error exactly when the file cannot be
    opened or cannot be read, and then returns no profile; in every other
    case it returns a profile and a nil error. *)
Theorem loadProfile_errors (F : Files) (path : string) :
  match loadProfile F path with
  | (Some _, None) => ∃ file bytesFile, Open F path = inl file ∧ ReadAll F file = inl bytesFile
  | (None, Some err) =>
      Open F path = inr err ∨ ∃ file, Open F path = inl file ∧ ReadAll F file = inr err
  | _ => False
  end.
Proof.
  unfold loadProfile.
  destruct (Open F path) as [file|err] eqn:Ho; [|by left].
  destruct (ReadAll F file) as [bytesFile|err] eqn:Hr; [|right; eauto].
  destruct (Unmarshal F bytesFile zeroProfile) as [p e]. eauto.
Qed.
